(** * InnerFormSchemaUtils: the query-form schema parser

    A shallow embedding of [src/components/DBTable/InnerFormSchemaUtils.js].
    [parse] packs the fields of a schema into rows of a 24-unit grid and
    returns a render function; each field is turned into a column producer
    (a closure waiting for antd's [getFieldDecorator]).

    Conventions of the embedding:
    - JS strings are [string]; an attribute that is absent ([undefined]) and
      is only compared against string literals ([showType], [dataType]) is
      any string different from those literals; attributes that are handed
      on to a widget ([title], the placeholders) are [option string];
    - [spaceLeft] is a JS number holding small integers: it is a [Z];
    - a React element is a tree [Elem type key props children];
    - calls to the logger and to [getFieldDecorator] are recorded in
      traces; calling [null] as a function is the outcome [TypeError]. *)

From Stdlib Require Import List String Ascii ZArith Bool Lia.
Import ListNotations.
Open Scope string_scope.
Open Scope Z_scope.
Open Scope list_scope.

Set Implicit Arguments.
Set Warnings "-register-all".

(** ** Schema *)

(** One entry of [field.options]: [{key, value}]. *)
Record SchemaOption := mkOption {
  optKey : string;
  optValue : string
}.

(** One entry of the schema. [options] is the array a choice field iterates
    over; the schema format requires it for those fields. *)
Record Field := mkField {
  key : string;
  title : option string;
  showType : string;
  dataType : string;
  options : list SchemaOption;
  placeholder : option string;
  placeholderBegin : option string;
  placeholderEnd : option string
}.

(** ** JS values and React elements *)

Inductive jsval :=
| JUndefined
| JBool (b : bool)
| JNum (n : Z)
| JDec (mantissa : Z) (exponent : Z)   (* mantissa * 10^exponent, for 0.01 *)
| JStr (s : string)
| JObj (fields : list (string * jsval))
| JArr (items : list jsval).

Inductive component :=
| Form | FormItem | Row | Col | Div
| Select | Option | RadioGroup | Radio | CheckboxGroup
| InputNumber | DatePicker | Input.

Inductive element :=
| Text (s : string)
| Elem (type : component) (ekey : option jsval)
       (props : list (string * jsval)) (children : list element).

Definition elem_key (e : element) : option jsval :=
  match e with
  | Text _ => None
  | Elem _ k _ _ => k
  end.

Definition elem_type (e : element) : option component :=
  match e with
  | Text _ => None
  | Elem t _ _ _ => Some t
  end.

Definition elem_children (e : element) : list element :=
  match e with
  | Text _ => []
  | Elem _ _ _ c => c
  end.

(** [x || d] on an optional string: [undefined] and [''] are falsy. *)
Definition js_or (x : option string) (d : string) : string :=
  match x with
  | None => d
  | Some EmptyString => d
  | Some s => s
  end.

Definition js_opt (x : option string) : jsval :=
  match x with
  | None => JUndefined
  | Some s => JStr s
  end.

(** ** The logger *)

(** Modelled from the spec: [utils/Logger] is not among the sources. The
    spec calls its output diagnostic-level tracing, for observability only;
    a call to [logger.debug] or [logger.error] is recorded as one entry
    made of the level, the format string and the argument. *)
Inductive level := Debug | Error.

Inductive log_arg :=
| ArgField (f : Field)
| ArgStr (s : string).

Record log_entry := mkLog {
  lvl : level;
  fmt : string;
  arg : log_arg
}.

(** A computation that calls the logger: its value and the entries it wrote. *)
Definition Logged (A : Type) : Type := A * list log_entry.

Definition logger_debug (f : string) (x : Field) : list log_entry :=
  [mkLog Debug f (ArgField x)].

Definition logger_error (f : string) (s : string) : list log_entry :=
  [mkLog Error f (ArgStr s)].

(** ** Rendering: calls to getFieldDecorator, and exceptions *)

Inductive outcome (A : Type) :=
| Returned (a : A)
| TypeError.
Arguments TypeError {A}.

(** A render computation runs against the list of keys registered so far. *)
Definition R (A : Type) : Type := list string -> outcome A * list string.

Definition ret {A} (a : A) : R A := fun t => (Returned a, t).

Definition bind {A B} (m : R A) (k : A -> R B) : R B :=
  fun t =>
    match m t with
    | (Returned a, t') => k a t'
    | (TypeError, t') => (TypeError, t')
    end.

Definition throw {A} : R A := fun t => (TypeError, t).

Notation "x <- m ;; k" := (bind m (fun x => k))
  (at level 61, m at next level, right associativity).

(** The host's registration function: [getFieldDecorator(k)(e)] returns an
    element chosen by the host. *)
Definition decorator := string -> element -> element.

(** The call [getFieldDecorator(k)(e)]: the key is registered. *)
Definition call_decorator (getFieldDecorator : decorator)
           (k : string) (e : element) : R element :=
  fun t => (Returned (getFieldDecorator k e), t ++ [k]).

(** A column producer as stored in [cols]: a closure, or [null]. *)
Definition producer := decorator -> R element.
Definition column := option producer.

(** [col(getFieldDecorator)] *)
Definition call_column (c : column) (getFieldDecorator : decorator) : R element :=
  match c with
  | Some f => f getFieldDecorator
  | None => throw
  end.

(** Strict equality of two strings, as in [switch] and [===]. *)
Infix "===" := String.eqb (at level 70, no associativity).

(** ** The transform functions *)

Definition str_key (s : string) : option jsval := Some (JStr s).

Definition span (n : Z) : jsval := JObj [("span", JNum n)].

(** [colWrapper(formItem, field)] *)
Definition colWrapper (formItem : producer) (field : Field) : producer :=
  fun getFieldDecorator =>
    item <- formItem getFieldDecorator ;;
    ret (Elem Col (str_key (key field)) [("sm", JNum 8)]
          [Elem FormItem (str_key (key field))
             [("label", js_opt (title field));
              ("labelCol", span 10); ("wrapperCol", span 14)]
             [item]]).

(** The [<Option>] children built by the [forEach] over [field.options]. *)
Definition option_elements (field : Field) : list element :=
  map (fun option =>
         Elem Option (str_key (optKey option))
              [("value", JStr (optKey option))] [Text (optValue option)])
      (options field).

Definition radio_elements (field : Field) : list element :=
  map (fun option =>
         Elem Radio (str_key (optKey option))
              [("value", JStr (optKey option))] [Text (optValue option)])
      (options field).

Definition checkbox_options (field : Field) : list jsval :=
  map (fun option =>
         JObj [("label", JStr (optValue option));
               ("value", JStr (optKey option))])
      (options field).

Definition transformSelect (field : Field) : Logged column :=
  (Some (colWrapper
           (fun getFieldDecorator =>
              call_decorator getFieldDecorator (key field)
                (Elem Select None
                   [("placeholder", JStr (js_or (placeholder field) "请选择"));
                    ("size", JStr "default")]
                   (option_elements field)))
           field),
   logger_debug "transform field %o to Select component" field).

Definition transformRadio (field : Field) : Logged column :=
  (Some (colWrapper
           (fun getFieldDecorator =>
              call_decorator getFieldDecorator (key field)
                (Elem RadioGroup None [] (radio_elements field)))
           field),
   logger_debug "transform field %o to Radio component" field).

Definition transformCheckbox (field : Field) : Logged column :=
  (Some (colWrapper
           (fun getFieldDecorator =>
              call_decorator getFieldDecorator (key field)
                (Elem CheckboxGroup None
                   [("options", JArr (checkbox_options field))] []))
           field),
   logger_debug "transform field %o to Checkbox component" field).

Definition transformMultiSelect (field : Field) : Logged column :=
  (Some (colWrapper
           (fun getFieldDecorator =>
              call_decorator getFieldDecorator (key field)
                (Elem Select None
                   [("multiple", JBool true);
                    ("placeholder", JStr (js_or (placeholder field) "请选择"));
                    ("size", JStr "default")]
                   (option_elements field)))
           field),
   logger_debug "transform field %o to MultipleSelect component" field).

Definition datetime_format : jsval := JStr "YYYY-MM-DD HH:mm:ss".

Definition transformNormal (field : Field) : Logged column :=
  if dataType field === "int" then
    (Some (colWrapper
             (fun getFieldDecorator =>
                call_decorator getFieldDecorator (key field)
                  (Elem InputNumber None [("size", JStr "default")] []))
             field),
     logger_debug "transform field %o to integer input component" field)
  else if dataType field === "float" then
    (Some (colWrapper
             (fun getFieldDecorator =>
                call_decorator getFieldDecorator (key field)
                  (Elem InputNumber None
                     [("step", JDec 1 (-2)); ("size", JStr "default")] []))
             field),
     logger_debug "transform field %o to float input component" field)
  else if dataType field === "datetime" then
    (Some (colWrapper
             (fun getFieldDecorator =>
                call_decorator getFieldDecorator (key field)
                  (Elem DatePicker None
                     [("showTime", JBool true); ("format", datetime_format);
                      ("placeholder",
                       JStr (js_or (placeholder field) "请选择日期"))] []))
             field),
     logger_debug "transform field %o to datetime input component" field)
  else
    (Some (colWrapper
             (fun getFieldDecorator =>
                call_decorator getFieldDecorator (key field)
                  (Elem Input None
                     [("placeholder", js_opt (placeholder field));
                      ("size", JStr "default")] []))
             field),
     logger_debug "transform field %o to varchar input component" field).

(** The template literals [`${field.key}Begin`] and [`${field.key}End`]. *)
Definition keyBegin (field : Field) : string := (key field ++ "Begin")%string.
Definition keyEnd (field : Field) : string := (key field ++ "End")%string.

(** [betweenColWrapper(beginFormItem, endFormItem, field)] *)
Definition betweenColWrapper (beginFormItem endFormItem : producer)
           (field : Field) : producer :=
  fun getFieldDecorator =>
    b <- beginFormItem getFieldDecorator ;;
    e <- endFormItem getFieldDecorator ;;
    ret (Elem Col (str_key (keyBegin field)) [("sm", JNum 8)]
          [Elem Row None []
             [Elem Col None [("span", JNum 16)]
                [Elem FormItem (str_key (keyBegin field))
                   [("label", js_opt (title field));
                    ("labelCol", span 15); ("wrapperCol", span 9)]
                   [b]];
              Elem Col None [("span", JNum 7); ("offset", JNum 1)]
                [Elem FormItem (str_key (keyEnd field))
                   [("labelCol", span 10); ("wrapperCol", span 14)]
                   [e]]]]).

(** The closure returned by the ['datetime'] case of [transformBetween]. *)
Definition datetimeBetween (field : Field) : producer :=
  fun getFieldDecorator =>
    b <- call_decorator getFieldDecorator (keyBegin field)
           (Elem DatePicker None
              [("showTime", JBool true); ("format", datetime_format);
               ("placeholder",
                JStr (js_or (placeholderBegin field) "开始日期"))] []) ;;
    e <- call_decorator getFieldDecorator (keyEnd field)
           (Elem DatePicker None
              [("showTime", JBool true); ("format", datetime_format);
               ("placeholder",
                JStr (js_or (placeholderEnd field) "结束日期"))] []) ;;
    ret (Elem Div (str_key "datetimeBetweenDiv") []
          [Elem Col (str_key (keyBegin field)) [("sm", JNum 8)]
             [Elem FormItem (str_key (keyBegin field))
                [("label", js_opt (title field));
                 ("labelCol", span 10); ("wrapperCol", span 14)]
                [b]];
           Elem Col (str_key (keyEnd field)) [("sm", JNum 8)]
             [Elem FormItem (str_key (keyEnd field))
                [("labelCol", span 10); ("wrapperCol", span 14)]
                [e]]]).

Definition transformBetween (field : Field) : Logged column :=
  if dataType field === "int" then
    (Some (betweenColWrapper
             (fun getFieldDecorator =>
                call_decorator getFieldDecorator (keyBegin field)
                  (Elem InputNumber None
                     [("size", JStr "default");
                      ("placeholder",
                       JStr (js_or (placeholderBegin field) "最小值"))] []))
             (fun getFieldDecorator =>
                call_decorator getFieldDecorator (keyEnd field)
                  (Elem InputNumber None
                     [("size", JStr "default");
                      ("placeholder",
                       JStr (js_or (placeholderEnd field) "最大值"))] []))
             field),
     logger_debug "transform field %o to integer BETWEEN component" field)
  else if dataType field === "float" then
    (Some (betweenColWrapper
             (fun getFieldDecorator =>
                call_decorator getFieldDecorator (keyBegin field)
                  (Elem InputNumber None
                     [("step", JDec 1 (-2)); ("size", JStr "default");
                      ("placeholder",
                       JStr (js_or (placeholderBegin field) "最小值"))] []))
             (fun getFieldDecorator =>
                call_decorator getFieldDecorator (keyEnd field)
                  (Elem InputNumber None
                     [("step", JDec 1 (-2)); ("size", JStr "default");
                      ("placeholder",
                       JStr (js_or (placeholderEnd field) "最大值"))] []))
             field),
     logger_debug "transform field %o to float BETWEEN component" field)
  else if dataType field === "datetime" then
    (Some (datetimeBetween field),
     logger_debug "transform field %o to datetime BETWEEN component" field)
  else
    (None, logger_error "unknown dataType: %s" (dataType field)).

(** ** parse *)

(** [spaceNeed] as computed at the top of the loop body. *)
Definition spaceNeed (field : Field) : Z :=
  if (showType field === "between") && (dataType field === "datetime")
  then 16 else 8.

(** The [switch (field.showType)] of the loop body: the value pushed onto
    [cols]. *)
Definition dispatch (field : Field) : Logged column :=
  if showType field === "select" then transformSelect field
  else if showType field === "radio" then transformRadio field
  else if showType field === "checkbox" then transformCheckbox field
  else if showType field === "multiSelect" then transformMultiSelect field
  else if showType field === "between" then transformBetween field
  else transformNormal field.

(** The loop only stores what the switch hands it, so it is written once
    for any kind of cell: [parse] runs it with [dispatch]; run with
    [fun field => (field, [])] it keeps the fields themselves, which is how
    the statements below speak about the widths inside a row. *)
Section Loop.
Variable A : Type.
Variable cell : Field -> Logged A.

(** The variables [rows], [cols] and [spaceLeft]. *)
Record vars := mkVars {
  rows : list (list A);
  cols : list A;
  spaceLeft : Z
}.

Definition init : vars := mkVars [] [] 24.

(** The [if (spaceLeft < spaceNeed)] block. *)
Definition wrap (st : vars) (need : Z) : vars :=
  if spaceLeft st <? need
  then mkVars (rows st ++ [cols st]) [] 24
  else st.

(** One iteration of [schema.forEach]. *)
Definition visit (s : Logged vars) (field : Field) : Logged vars :=
  let (st, lg) := s in
  let st1 := wrap st (spaceNeed field) in
  let (c, lg') := cell field in
  (mkVars (rows st1) (cols st1 ++ [c]) (spaceLeft st1 - spaceNeed field),
   lg ++ lg').

Definition forEach (schema : list Field) (s : Logged vars) : Logged vars :=
  fold_left visit schema s.

(** [if (cols.length > 0) rows.push(cols)] *)
Definition finish (st : vars) : list (list A) :=
  if (0 <? List.length (cols st))%nat then rows st ++ [cols st] else rows st.

(** [rows] as captured by the returned closure, and the logger output. *)
Definition pack (schema : list Field) : Logged (list (list A)) :=
  let (st, lg) := forEach schema (init, []) in
  (finish st, lg).
End Loop.

Arguments init {A}.

(** The render function returned by [parse]. *)
Fixpoint render_cols (row : list column) (getFieldDecorator : decorator)
  : R (list element) :=
  match row with
  | [] => ret []
  | col :: rest =>
      c <- call_column col getFieldDecorator ;;
      formCols <- render_cols rest getFieldDecorator ;;
      ret (c :: formCols)
  end.

Fixpoint render_rows (i : nat) (plan : list (list column))
         (getFieldDecorator : decorator) : R (list element) :=
  match plan with
  | [] => ret []
  | row :: rest =>
      formCols <- render_cols row getFieldDecorator ;;
      formRows <- render_rows (S i) rest getFieldDecorator ;;
      ret (Elem Row (Some (JNum (Z.of_nat i))) [("gutter", JNum 16)] formCols
             :: formRows)
  end.

Definition render (plan : list (list column)) (getFieldDecorator : decorator)
  : R element :=
  formRows <- render_rows 0 plan getFieldDecorator ;;
  ret (Elem Form None [("horizontal", JBool true)] formRows).

(** The layout plan [parse] builds, with what it logged. *)
Definition parse_plan (schema : list Field) : Logged (list (list column)) :=
  pack dispatch schema.

Definition parse (schema : list Field) : Logged (decorator -> R element) :=
  let (plan, lg) := parse_plan schema in (render plan, lg).

(** The same loop keeping the fields: which field went to which row. *)
Definition field_rows (schema : list Field) : list (list Field) :=
  fst (pack (fun field => (field, [])) schema).

(** Occupied width of a row of fields. *)
Definition row_width (row : list Field) : Z :=
  fold_right (fun field w => spaceNeed field + w) 0 row.

(** Running the render function from an empty registration trace. *)
Definition run_render (schema : list Field) (getFieldDecorator : decorator)
  : outcome element * list string :=
  fst (parse schema) getFieldDecorator [].

(** A field with only its key, showType and dataType set. *)
Definition plain (k : string) (st dt : string) : Field :=
  mkField k None st dt [] None None None.

(** ** Definitions used by the statements *)

(** One iteration on the variables alone. *)
Definition advance {A} (cell : Field -> A) (st : vars A) (field : Field)
  : vars A :=
  let st1 := wrap st (spaceNeed field) in
  mkVars (rows st1) (cols st1 ++ [cell field])
         (spaceLeft st1 - spaceNeed field).

(** The variables with every stored cell mapped through [g]. *)
Definition map_vars {A B} (g : A -> B) (st : vars A) : vars B :=
  mkVars (map (map g) (rows st)) (map g (cols st)) (spaceLeft st).

(** The variables after the loop has kept the fields of [schema]. *)
Definition field_vars (schema : list Field) : vars Field :=
  fold_left (advance (fun f => f)) schema init.

(** The loop invariant: closed rows fit the grid and are non-empty,
    [spaceLeft] is what the open row leaves of the 24 units, and an empty
    open row only occurs before the first field. *)
Record packed (st : vars Field) : Prop := mkPacked {
  rows_fit : Forall (fun r => row_width r <= 24) (rows st);
  rows_inhabited : Forall (fun r => r <> []) (rows st);
  left_eq : spaceLeft st = 24 - row_width (cols st);
  left_nonneg : 0 <= spaceLeft st;
  fresh_start : cols st = [] -> rows st = []
}.

(** The row being filled once [schema] has been read. *)
Definition current_row (schema : list Field) : list Field :=
  last (field_rows schema) [].

(** The loop invariant for schemas of 8-unit fields. *)
Record threes (st : vars Field) : Prop := mkThrees {
  closed_three : Forall (fun r => List.length r = 3%nat) (rows st);
  open_eights : Forall (fun f => spaceNeed f = 8) (cols st)
}.

(** Sample schemas. *)
Definition four_plain_fields : list Field :=
  [plain "name" "" "varchar"; plain "type" "select" "int";
   plain "age" "between" "int"; plain "born" "" "datetime"].

(** The keys a field is expected to register. *)
Definition registration_keys (field : Field) : list string :=
  if showType field === "between"
  then [keyBegin field; keyEnd field]
  else [key field].

(** A field for which [transformBetween] has a case. *)
Definition supported (field : Field) : bool :=
  negb (showType field === "between")
  || (dataType field === "int") || (dataType field === "float")
  || (dataType field === "datetime").

(** The key of the element a producer returns. *)
Definition cell_key (field : Field) : string :=
  if showType field === "between"
  then if dataType field === "datetime" then "datetimeBetweenDiv"
       else keyBegin field
  else key field.

(** The grid cells an element contributes to its row: itself when it is a
    [Col], its children when it is a wrapper around cells. *)
Definition cells_of (e : element) : list element :=
  match e with
  | Elem Col _ _ _ => [e]
  | _ => elem_children e
  end.

(** Is the element a grid cell? *)
Definition is_col (e : element) : bool :=
  match e with
  | Elem Col _ _ _ => true
  | _ => false
  end.

(** The column [parse] stores for a field. *)
Definition producer_of (field : Field) : column := fst (dispatch field).

(** The characters of a string, to reason about suffixes. *)
Definition chars (s : string) : list ascii := list_ascii_of_string s.

(** No key of a field that is not a between field is a derived key of
    another field. *)
Definition no_derived_clash (schema : list Field) : Prop :=
  forall i j f g,
    i <> j -> nth_error schema i = Some f -> nth_error schema j = Some g ->
    showType f <> "between" ->
    key f <> keyBegin g /\ key f <> keyEnd g.

(** A between field has one of the dataTypes [transformBetween] handles. *)
Definition between_has_case (field : Field) : Prop :=
  showType field = "between" ->
  dataType field = "int" \/ dataType field = "float" \/
  dataType field = "datetime".

Definition person_fields : list Field :=
  [plain "name" "" "varchar"; plain "age" "between" "int";
   plain "born" "between" "datetime"].

Definition ranged_text_field : list Field :=
  [plain "name" "" "varchar"; plain "age" "between" "varchar"].

(** The two layouts of a between field, around the two decorated widgets. *)
Definition numbers_in_one_cell (field : Field) (b e : element) : element :=
  Elem Col (str_key (keyBegin field)) [("sm", JNum 8)]
    [Elem Row None []
       [Elem Col None [("span", JNum 16)]
          [Elem FormItem (str_key (keyBegin field))
             [("label", js_opt (title field));
              ("labelCol", span 15); ("wrapperCol", span 9)]
             [b]];
        Elem Col None [("span", JNum 7); ("offset", JNum 1)]
          [Elem FormItem (str_key (keyEnd field))
             [("labelCol", span 10); ("wrapperCol", span 14)]
             [e]]]].

Definition pickers_in_two_cells (field : Field) (b e : element) : element :=
  Elem Div (str_key "datetimeBetweenDiv") []
    [Elem Col (str_key (keyBegin field)) [("sm", JNum 8)]
       [Elem FormItem (str_key (keyBegin field))
          [("label", js_opt (title field));
           ("labelCol", span 10); ("wrapperCol", span 14)]
          [b]];
     Elem Col (str_key (keyEnd field)) [("sm", JNum 8)]
       [Elem FormItem (str_key (keyEnd field))
          [("labelCol", span 10); ("wrapperCol", span 14)]
          [e]]].

(** A cell that forgets its field: only the shape of the rows remains. *)
Definition blank (_ : Field) : unit := tt.

Definition unknown_between_fields : list Field :=
  [plain "age" "between" "unknown"; plain "name" "" "varchar"].

Definition two_date_ranges : list Field :=
  [plain "born" "between" "datetime"; plain "hired" "between" "datetime"].

(** ** Definitions for the render function as a whole *)

(** A render computation that only appends to the trace, with an outcome
    and appended keys that do not depend on the keys registered before. *)
Definition framed {A} (m : R A) : Prop :=
  exists o ks, forall t, m t = (o, t ++ ks).

(** Did the computation throw, and which keys were registered. *)
Definition effect {A} (x : outcome A * list string) : bool * list string :=
  (match fst x with Returned _ => false | TypeError => true end, snd x).

(** [e] is what the producer of [field] returns, from any trace. *)
Definition renders_as (getFieldDecorator : decorator)
           (field : Field) (e : element) : Prop :=
  forall t, call_column (producer_of field) getFieldDecorator t =
            (Returned e, t ++ registration_keys field).

(** The [<Row key={i} gutter={16}>] elements around rendered columns. *)
Fixpoint row_elements (i : nat) (ess : list (list element)) : list element :=
  match ess with
  | [] => []
  | es :: rest =>
      Elem Row (Some (JNum (Z.of_nat i))) [("gutter", JNum 16)] es
        :: row_elements (S i) rest
  end.

Definition form_element (ess : list (list element)) : element :=
  Elem Form None [("horizontal", JBool true)] (row_elements 0 ess).

(** The between/datetime test of [spaceNeed]. *)
Definition datetime_between (field : Field) : bool :=
  (showType field === "between") && (dataType field === "datetime").

(** The showTypes whose widget is built from [field.options]. *)
Definition is_choice (field : Field) : bool :=
  (showType field === "select") || (showType field === "radio")
  || (showType field === "checkbox") || (showType field === "multiSelect").

(** A property of every pair of neighbouring rows. *)
Fixpoint adjacent (P : list Field -> list Field -> Prop)
         (l : list (list Field)) : Prop :=
  match l with
  | [] => True
  | r :: tl =>
      match tl with
      | [] => True
      | r' :: _ => P r r'
      end /\ adjacent P tl
  end.

(** The first field of [next] did not fit into what [row] left free. *)
Definition closed_by (row next : list Field) : Prop :=
  match next with
  | [] => False
  | field :: _ => 24 - row_width row < spaceNeed field
  end.

(** Field updates, to compare fields that differ in one attribute. *)
Definition with_dataType (field : Field) (dt : string) : Field :=
  mkField (key field) (title field) (showType field) dt (options field)
          (placeholder field) (placeholderBegin field) (placeholderEnd field).

Definition with_placeholders (field : Field) (ph phb phe : option string)
  : Field :=
  mkField (key field) (title field) (showType field) (dataType field)
          (options field) ph phb phe.

(** The free-text input: the [default] case of both switches. *)
Definition is_text_input (field : Field) : bool :=
  negb (is_choice field) && negb (showType field === "between")
  && negb (dataType field === "int") && negb (dataType field === "float")
  && negb (dataType field === "datetime").

(** A grid cell of 8 units: [<Col sm={8}>]. *)
Definition cell8 (e : element) : Prop :=
  exists k cs, e = Elem Col k [("sm", JNum 8)] cs.

(** [e] is the element rendered for [field]: returned by its producer from
    any trace, keyed by [cell_key], and made of as many 8-unit cells as
    [parse] counted units for the field. *)
Definition cell_of (getFieldDecorator : decorator)
           (field : Field) (e : element) : Prop :=
  renders_as getFieldDecorator field e /\
  elem_key e = str_key (cell_key field) /\
  Forall cell8 (cells_of e) /\
  8 * Z.of_nat (List.length (cells_of e)) = spaceNeed field.

(** * Properties *)

(** ** The loop without its log *)

Lemma forEach_split A (cell : Field -> Logged A) schema st lg :
  forEach cell schema (st, lg) =
  (fold_left (advance (fun f => fst (cell f))) schema st,
   lg ++ flat_map (fun f => snd (cell f)) schema).
Proof.
  revert st lg. induction schema as [|f schema IH]; intros st lg; simpl.
  - now rewrite app_nil_r.
  - unfold forEach in *. simpl. unfold advance at 2.
    destruct (cell f) as [c lg']. simpl. rewrite IH.
    now rewrite app_assoc.
Qed.

Lemma wrap_map A B (g : A -> B) st need :
  wrap (map_vars g st) need = map_vars g (wrap st need).
Proof.
  unfold wrap, map_vars; simpl. destruct (spaceLeft st <? need); simpl; auto.
  now rewrite map_app.
Qed.

Lemma advance_map A B (g : A -> B) (cell : Field -> A) st f :
  advance (fun x => g (cell x)) (map_vars g st) f =
  map_vars g (advance cell st f).
Proof.
  unfold advance. rewrite wrap_map. unfold map_vars; simpl.
  now rewrite map_app.
Qed.

Lemma fold_advance_map A B (g : A -> B) (cell : Field -> A) schema st :
  fold_left (advance (fun x => g (cell x))) schema (map_vars g st) =
  map_vars g (fold_left (advance cell) schema st).
Proof.
  revert st. induction schema as [|f schema IH]; intros st; simpl; auto.
  now rewrite advance_map, IH.
Qed.

Lemma finish_map A B (g : A -> B) (st : vars A) :
  finish (map_vars g st) = map (map g) (finish st).
Proof.
  unfold finish, map_vars; simpl. rewrite length_map.
  destruct (0 <? List.length (cols st))%nat; auto.
  now rewrite map_app.
Qed.

Lemma field_rows_eq schema : field_rows schema = finish (field_vars schema).
Proof.
  unfold field_rows, pack. rewrite forEach_split. reflexivity.
Qed.

Lemma pack_fst A (cell : Field -> Logged A) schema :
  fst (pack cell schema) =
  map (map (fun f => fst (cell f))) (field_rows schema).
Proof.
  rewrite field_rows_eq. unfold pack. rewrite forEach_split. simpl.
  rewrite <- finish_map. unfold field_vars.
  rewrite <- fold_advance_map. reflexivity.
Qed.

Lemma pack_snd A (cell : Field -> Logged A) schema :
  snd (pack cell schema) = flat_map (fun f => snd (cell f)) schema.
Proof.
  unfold pack. rewrite forEach_split. reflexivity.
Qed.

(** ** Widths *)

Lemma spaceNeed_cases f : spaceNeed f = 8 \/ spaceNeed f = 16.
Proof.
  unfold spaceNeed.
  destruct ((showType f === "between") && (dataType f === "datetime")); auto.
Qed.

Lemma spaceNeed_16 f :
  spaceNeed f = 16 <-> showType f = "between" /\ dataType f = "datetime".
Proof.
  unfold spaceNeed. rewrite <- !String.eqb_eq, <- andb_true_iff.
  destruct ((showType f === "between") && (dataType f === "datetime"));
    split; intros H; try reflexivity; discriminate.
Qed.

Lemma row_width_app r1 r2 : row_width (r1 ++ r2) = row_width r1 + row_width r2.
Proof.
  induction r1 as [|f r1 IH]; simpl; auto. rewrite IH. lia.
Qed.

Lemma row_width_snoc r f : row_width (r ++ [f]) = row_width r + spaceNeed f.
Proof.
  rewrite row_width_app. unfold row_width at 2. simpl fold_right. lia.
Qed.

Lemma row_width_nonneg r : 0 <= row_width r.
Proof.
  induction r as [|f r IH]; simpl; [lia|].
  destruct (spaceNeed_cases f); lia.
Qed.

Lemma row_width_pos r : r <> [] -> 8 <= row_width r.
Proof.
  destruct r as [|f r]; [congruence|]. intros _. simpl.
  pose proof (row_width_nonneg r). destruct (spaceNeed_cases f); lia.
Qed.

(** ** The loop invariant *)

Lemma packed_init : packed init.
Proof. constructor; simpl; auto; lia. Qed.

Lemma packed_advance st f :
  packed st -> packed (advance (fun x => x) st f) /\
               cols (advance (fun x => x) st f) <> [].
Proof.
  intros [Hfit Hin Heq Hnn Hfresh]. split.
  2:{ unfold advance; simpl. intros E. now apply app_eq_nil in E as [_ E]. }
  pose proof (spaceNeed_cases f) as Hf.
  unfold advance, wrap. destruct (spaceLeft st <? spaceNeed f) eqn:E.
  - apply Z.ltb_lt in E. constructor; cbn [rows cols spaceLeft].
    + apply Forall_app; split; auto. constructor; auto. lia.
    + apply Forall_app; split; auto. constructor; auto.
      intros C. rewrite C in Heq. change (row_width []) with 0 in Heq. lia.
    + rewrite row_width_snoc. change (row_width []) with 0. lia.
    + lia.
    + intros C. now apply app_eq_nil in C as [_ C].
  - apply Z.ltb_ge in E. constructor; cbn [rows cols spaceLeft]; auto.
    + rewrite row_width_snoc. lia.
    + lia.
    + intros C. now apply app_eq_nil in C as [_ C].
Qed.

Lemma packed_fold schema st :
  packed st -> packed (fold_left (advance (fun x => x)) schema st).
Proof.
  revert st. induction schema as [|f schema IH]; intros st H; simpl; auto.
  apply IH. now apply packed_advance.
Qed.

Lemma packed_field_vars schema : packed (field_vars schema).
Proof. apply packed_fold, packed_init. Qed.

Lemma concat_finish A (st : vars A) :
  List.concat (finish st) = List.concat (rows st) ++ cols st.
Proof.
  unfold finish. destruct (cols st) as [|c cs]; simpl.
  - now rewrite app_nil_r.
  - rewrite concat_app. simpl. now rewrite app_nil_r.
Qed.

Lemma contents_advance A (cell : Field -> A) st f :
  List.concat (rows (advance cell st f)) ++ cols (advance cell st f) =
  (List.concat (rows st) ++ cols st) ++ [cell f].
Proof.
  unfold advance, wrap. destruct (spaceLeft st <? spaceNeed f); simpl.
  - rewrite concat_app. simpl. now rewrite app_nil_r.
  - now rewrite app_assoc.
Qed.

Lemma contents_fold A (cell : Field -> A) schema st :
  let st' := fold_left (advance cell) schema st in
  List.concat (rows st') ++ cols st' = (List.concat (rows st) ++ cols st) ++ map cell schema.
Proof.
  revert st. induction schema as [|f schema IH]; intros st; simpl.
  - now rewrite app_nil_r.
  - simpl in IH. rewrite IH, contents_advance, <- app_assoc. reflexivity.
Qed.

Lemma concat_field_rows schema : List.concat (field_rows schema) = schema.
Proof.
  rewrite field_rows_eq, concat_finish. unfold field_vars.
  rewrite (contents_fold (fun x => x) schema init). simpl. apply map_id.
Qed.

Lemma finish_cons A (st : vars A) :
  cols st <> [] -> finish st = rows st ++ [cols st].
Proof.
  unfold finish. destruct (cols st); [congruence|reflexivity].
Qed.

Lemma finish_nil A (st : vars A) : cols st = [] -> finish st = rows st.
Proof.
  unfold finish. intros ->. reflexivity.
Qed.

Lemma field_rows_fit schema :
  Forall (fun r => row_width r <= 24) (field_rows schema).
Proof.
  rewrite field_rows_eq. destruct (packed_field_vars schema).
  unfold finish. destruct (0 <? List.length (cols (field_vars schema)))%nat; auto.
  apply Forall_app; split; auto. constructor; auto. lia.
Qed.

Lemma field_rows_inhabited schema :
  Forall (fun r => r <> []) (field_rows schema).
Proof.
  rewrite field_rows_eq. destruct (packed_field_vars schema).
  destruct (cols (field_vars schema)) as [|c cs] eqn:E.
  - rewrite finish_nil; auto.
  - rewrite finish_cons by congruence. apply Forall_app; split; auto.
    constructor; auto. congruence.
Qed.

Lemma field_vars_snoc schema f :
  field_vars (schema ++ [f]) = advance (fun x => x) (field_vars schema) f.
Proof. unfold field_vars. now rewrite fold_left_app. Qed.

Lemma current_row_cols schema : current_row schema = cols (field_vars schema).
Proof.
  unfold current_row. rewrite field_rows_eq.
  destruct (packed_field_vars schema).
  destruct (cols (field_vars schema)) as [|c cs] eqn:E.
  - rewrite finish_nil, fresh_start0; auto.
  - rewrite finish_cons by congruence. rewrite E. apply last_last.
Qed.

Lemma field_rows_snoc schema f :
  field_rows (schema ++ [f]) =
  if 24 - row_width (current_row schema) <? spaceNeed f
  then field_rows schema ++ [[f]]
  else removelast (field_rows schema) ++ [current_row schema ++ [f]].
Proof.
  rewrite current_row_cols, !field_rows_eq, field_vars_snoc.
  pose proof (packed_field_vars schema) as P.
  destruct (packed_advance f P) as [_ Hne].
  rewrite (finish_cons _ Hne). destruct P. rewrite <- left_eq0.
  unfold advance, wrap.
  destruct (spaceLeft (field_vars schema) <? spaceNeed f) eqn:E; simpl.
  - rewrite finish_cons; auto.
    apply Z.ltb_lt in E. intros C. rewrite C in left_eq0. simpl in left_eq0.
    destruct (spaceNeed_cases f); lia.
  - destruct (cols (field_vars schema)) as [|c cs] eqn:C.
    + rewrite finish_nil, fresh_start0; auto.
    + rewrite finish_cons by congruence. rewrite removelast_last. auto.
Qed.

(** ** Schemas of 8-unit fields *)

Lemma row_width_eights r :
  Forall (fun f => spaceNeed f = 8) r -> row_width r = 8 * Z.of_nat (List.length r).
Proof.
  induction 1 as [|f r Hf _ IH]; [reflexivity|].
  change (row_width (f :: r)) with (spaceNeed f + row_width r).
  rewrite IH, Hf. simpl List.length. lia.
Qed.

Lemma threes_advance st f :
  packed st -> threes st -> spaceNeed f = 8 ->
  threes (advance (fun x => x) st f).
Proof.
  intros [_ _ Heq Hnn _] [H3 H8] Hf. pose proof (row_width_eights H8) as Hw.
  unfold advance, wrap. rewrite Hf.
  destruct (spaceLeft st <? 8) eqn:E; constructor; cbn [rows cols]; auto;
    try (apply Forall_app; split; auto).
  apply Z.ltb_lt in E. constructor; auto. lia.
Qed.

Lemma threes_fold schema st :
  packed st -> threes st -> Forall (fun f => spaceNeed f = 8) schema ->
  threes (fold_left (advance (fun x => x)) schema st).
Proof.
  revert st. induction schema as [|f schema IH]; intros st P T H; simpl; auto.
  inversion H; subst. apply IH; auto.
  - now apply packed_advance.
  - now apply threes_advance.
Qed.

Lemma field_rows_threes schema :
  Forall (fun f => spaceNeed f = 8) schema ->
  (forall i, (S i < List.length (field_rows schema))%nat ->
             List.length (nth i (field_rows schema) []) = 3%nat) /\
  (forall r, In r (field_rows schema) -> (1 <= List.length r <= 3)%nat).
Proof.
  intros H. rewrite field_rows_eq.
  pose proof (packed_field_vars schema) as [_ _ Heq Hnn _].
  assert (T : threes (field_vars schema)).
  { apply threes_fold; auto using packed_init. constructor; simpl; auto. }
  destruct T as [H3 H8]. pose proof (row_width_eights H8) as Hw.
  rewrite Forall_forall in H3.
  destruct (cols (field_vars schema)) as [|c cs] eqn:C.
  - rewrite finish_nil by auto. split.
    + intros i Hi. apply H3, nth_In. lia.
    + intros r Hr. rewrite (H3 r Hr). lia.
  - rewrite finish_cons by congruence. split.
    + intros i Hi. rewrite length_app in Hi. simpl in Hi.
      rewrite app_nth1 by lia. apply H3, nth_In. lia.
    + intros r Hr. apply in_app_or in Hr as [Hr|[<-|[]]].
      * rewrite (H3 r Hr). lia.
      * rewrite C in *. simpl List.length in *. lia.
Qed.

(** ** Claims about the packing *)

(** C1. In the plan built by [parse] no row is wider than 24 units (16 for
    a between/datetime field, 8 for any other): the plan is the image of
    [field_rows], which keeps the fields in order and whose rows all have
    width at most 24; and a field that needs more than what is left in the
    current row opens a new row, any other field joins the current row. *)
Theorem parse_rows_fit_grid (schema : list Field) :
  fst (parse_plan schema) =
    map (map (fun field => fst (dispatch field))) (field_rows schema) /\
  List.concat (field_rows schema) = schema /\
  Forall (fun row => row_width row <= 24) (field_rows schema) /\
  (forall field,
      field_rows (schema ++ [field]) =
      if 24 - row_width (current_row schema) <? spaceNeed field
      then field_rows schema ++ [[field]]
      else removelast (field_rows schema) ++ [current_row schema ++ [field]]).
Proof.
  repeat split.
  - apply pack_fst.
  - apply concat_field_rows.
  - apply field_rows_fit.
  - intros field. apply field_rows_snoc.
Qed.

(** C2. The width [parse] gives a field is 16 exactly when its showType is
    'between' and its dataType is 'datetime', and 8 in every other case; it
    depends on these two attributes only, and it is the amount one iteration
    of the loop takes from the remaining capacity. *)
Theorem spaceNeed_only_datetime_between (field : Field) :
  (spaceNeed field = 16 <->
     showType field = "between" /\ dataType field = "datetime") /\
  (~ (showType field = "between" /\ dataType field = "datetime") ->
     spaceNeed field = 8) /\
  (forall other, showType other = showType field ->
                 dataType other = dataType field ->
                 spaceNeed other = spaceNeed field) /\
  (forall (st : vars column) lg,
      spaceLeft (fst (visit dispatch (st, lg) field)) =
      (if spaceLeft st <? spaceNeed field then 24 else spaceLeft st)
      - spaceNeed field).
Proof.
  split; [apply spaceNeed_16|]. split; [|split].
  - intros H. destruct (spaceNeed_cases field) as [E|E]; auto.
    now apply spaceNeed_16 in E.
  - intros other Hs Hd. unfold spaceNeed. now rewrite Hs, Hd.
  - intros st lg. unfold visit, wrap. destruct (dispatch field).
    destruct (spaceLeft st <? spaceNeed field); reflexivity.
Qed.

Lemma not_datetime_between_eight f :
  ~ (showType f = "between" /\ dataType f = "datetime") -> spaceNeed f = 8.
Proof.
  intros H. destruct (spaceNeed_cases f) as [E|E]; auto.
  now apply spaceNeed_16 in E.
Qed.

(** C3. When no field is a between/datetime field, the plan holds the
    producers of the fields in schema order, every row but the last has
    exactly 3 columns and every row has between 1 and 3 columns. *)
Theorem parse_rows_of_three (schema : list Field)
  (H : Forall (fun field =>
                 ~ (showType field = "between" /\ dataType field = "datetime"))
              schema) :
  List.concat (fst (parse_plan schema)) =
    map (fun field => fst (dispatch field)) schema /\
  (forall i, (S i < List.length (fst (parse_plan schema)))%nat ->
             List.length (nth i (fst (parse_plan schema)) []) = 3%nat) /\
  (forall row, In row (fst (parse_plan schema)) ->
               (1 <= List.length row <= 3)%nat).
Proof.
  assert (H8 : Forall (fun f => spaceNeed f = 8) schema).
  { eapply Forall_impl; [|exact H]. apply not_datetime_between_eight. }
  destruct (field_rows_threes H8) as [Hfull Hall].
  unfold parse_plan. rewrite pack_fst. split; [|split].
  - now rewrite <- concat_map, concat_field_rows.
  - intros i Hi. rewrite length_map in Hi.
    change (@nil column) with (map (fun f => fst (dispatch f)) []).
    rewrite map_nth, length_map. auto.
  - intros row Hr. apply in_map_iff in Hr as [r [<- Hr]].
    rewrite length_map. auto.
Qed.

Lemma parse_rows_of_three_witness :
  Forall (fun field =>
            ~ (showType field = "between" /\ dataType field = "datetime"))
         four_plain_fields /\
  List.concat (fst (parse_plan four_plain_fields)) =
    map (fun field => fst (dispatch field)) four_plain_fields /\
  (forall i, (S i < List.length (fst (parse_plan four_plain_fields)))%nat ->
     List.length (nth i (fst (parse_plan four_plain_fields)) []) = 3%nat) /\
  (forall row, In row (fst (parse_plan four_plain_fields)) ->
     (1 <= List.length row <= 3)%nat).
Proof.
  assert (H : Forall (fun field =>
                ~ (showType field = "between" /\ dataType field = "datetime"))
              four_plain_fields).
  { repeat constructor; simpl; intros [E1 E2]; discriminate. }
  split; [exact H | exact (parse_rows_of_three H)].
Defined.

Lemma vars_of_forEach A (cell : Field -> Logged A) schema :
  fst (forEach cell schema (init, [])) =
  map_vars (fun f => fst (cell f)) (field_vars schema).
Proof.
  rewrite forEach_split. simpl. unfold field_vars.
  rewrite <- fold_advance_map. reflexivity.
Qed.

Lemma wrap_fresh A (st : vars A) need :
  spaceLeft st = 24 -> need <= 16 -> wrap st need = st.
Proof.
  intros E H. unfold wrap. rewrite E.
  destruct (24 <? need) eqn:C; auto. apply Z.ltb_lt in C. lia.
Qed.

(** C8. Every row of the plan is non-empty: a freshly opened row has room
    for any field, and whenever the loop reaches a field with an empty row
    buffer the close-row branch leaves the variables unchanged. *)
Theorem parse_rows_nonempty (schema : list Field) :
  Forall (fun row => row <> []) (fst (parse_plan schema)) /\
  (forall field, spaceNeed field <= 16 /\
                 wrap (@init column) (spaceNeed field) = init) /\
  (forall field,
      cols (fst (forEach dispatch schema (init, []))) = [] ->
      wrap (fst (forEach dispatch schema (init, []))) (spaceNeed field) =
      fst (forEach dispatch schema (init, []))).
Proof.
  split; [|split].
  - unfold parse_plan. rewrite pack_fst. apply Forall_map.
    eapply Forall_impl; [|apply field_rows_inhabited].
    intros r Hr E. apply Hr. now apply map_eq_nil in E.
  - intros field. assert (spaceNeed field <= 16)
      by (destruct (spaceNeed_cases field); lia).
    split; auto. now apply wrap_fresh.
  - intros field. rewrite vars_of_forEach. cbn [cols map_vars]. intros E.
    apply map_eq_nil in E. apply wrap_fresh.
    + destruct (packed_field_vars schema) as [_ _ Heq _ _].
      unfold map_vars. cbn [spaceLeft]. rewrite Heq, E. reflexivity.
    + destruct (spaceNeed_cases field); lia.
Qed.

(** ** What one producer renders *)

Ltac case_str s lit :=
  let E := fresh "E" in
  destruct (String.eqb_spec s lit) as [E|E];
  [ try rewrite E in *; cbn [String.eqb Ascii.eqb Bool.eqb andb orb negb] in * | ].

Ltac run_producer :=
  cbv [colWrapper betweenColWrapper datetimeBetween call_decorator bind ret];
  rewrite <- ?app_assoc; cbn [app].

Lemma transformNormal_renders field getFieldDecorator t :
  exists p e,
    fst (transformNormal field) = Some p /\
    p getFieldDecorator t = (Returned e, t ++ [key field]) /\
    elem_key e = str_key (key field) /\ is_col e = true.
Proof.
  unfold transformNormal.
  destruct (dataType field === "int");
    [|destruct (dataType field === "float");
      [|destruct (dataType field === "datetime")]];
    do 2 eexists; (split; [reflexivity|]); run_producer; auto.
Qed.

Lemma transformBetween_renders field getFieldDecorator t :
  supported field = true -> showType field = "between" ->
  exists p e,
    fst (transformBetween field) = Some p /\
    p getFieldDecorator t =
      (Returned e, t ++ [keyBegin field; keyEnd field]) /\
    elem_key e = str_key (cell_key field) /\
    is_col e = negb (dataType field === "datetime").
Proof.
  unfold supported, transformBetween, cell_key. intros S B. rewrite B in *.
  cbn [String.eqb Ascii.eqb Bool.eqb negb orb] in *.
  case_str (dataType field) "int";
    [|case_str (dataType field) "float";
      [|case_str (dataType field) "datetime"]].
  1-3: do 2 eexists; (split; [reflexivity|]); run_producer; auto.
  cbn [orb] in S. discriminate.
Qed.

Lemma dispatch_renders field getFieldDecorator t :
  supported field = true ->
  exists p e,
    fst (dispatch field) = Some p /\
    p getFieldDecorator t = (Returned e, t ++ registration_keys field) /\
    elem_key e = str_key (cell_key field) /\
    is_col e =
      negb ((showType field === "between") && (dataType field === "datetime")).
Proof.
  intros S.
  destruct (showType field === "between") eqn:B.
  - apply String.eqb_eq in B.
    destruct (transformBetween_renders field getFieldDecorator t S B)
      as (p & e & Hp & Hr & Hk & Hc).
    exists p, e. unfold dispatch, registration_keys. rewrite B.
    cbn [String.eqb Ascii.eqb Bool.eqb andb]. auto.
  - unfold dispatch, registration_keys, cell_key. rewrite B. cbn [andb negb].
    case_str (showType field) "select";
      [|case_str (showType field) "radio";
        [|case_str (showType field) "checkbox";
          [|case_str (showType field) "multiSelect"]]].
    1-4: do 2 eexists; (split; [reflexivity|]); run_producer; auto.
    destruct (transformNormal_renders field getFieldDecorator t)
      as (p & e & Hp & Hr & Hk & Hc).
    exists p, e. auto.
Qed.

Lemma dispatch_unsupported field :
  showType field = "between" ->
  dataType field <> "int" -> dataType field <> "float" ->
  dataType field <> "datetime" ->
  dispatch field = (None, logger_error "unknown dataType: %s" (dataType field)).
Proof.
  intros B Hi Hf Hd. unfold dispatch, transformBetween. rewrite B.
  cbn [String.eqb Ascii.eqb Bool.eqb].
  apply String.eqb_neq in Hi, Hf, Hd. now rewrite Hi, Hf, Hd.
Qed.

(** ** What the render function does *)

Lemma parse_plan_fst schema :
  fst (parse_plan schema) = map (map producer_of) (field_rows schema).
Proof. apply pack_fst. Qed.

Lemma parse_fst schema : fst (parse schema) = render (fst (parse_plan schema)).
Proof. unfold parse. now destruct (parse_plan schema). Qed.

Lemma parse_snd schema :
  snd (parse schema) = flat_map (fun field => snd (dispatch field)) schema.
Proof.
  unfold parse, parse_plan. rewrite <- pack_snd.
  now destruct (pack dispatch schema).
Qed.

Lemma render_cols_ok fs getFieldDecorator t :
  Forall (fun f => supported f = true) fs ->
  exists es,
    render_cols (map producer_of fs) getFieldDecorator t =
      (Returned es, t ++ flat_map registration_keys fs) /\
    map elem_key es = map (fun f => str_key (cell_key f)) fs.
Proof.
  intros H. revert t. induction H as [|f fs Hf _ IH]; intros t.
  - exists []. simpl. unfold ret. now rewrite app_nil_r.
  - destruct (dispatch_renders f getFieldDecorator t Hf)
      as (p & e & Hp & Hr & Hk & _).
    destruct (IH (t ++ registration_keys f)) as (es & Hes & Hks).
    exists (e :: es). split.
    + cbn [map render_cols flat_map]. unfold bind, producer_of at 1.
      rewrite Hp. cbn [call_column]. rewrite Hr, Hes. unfold ret.
      now rewrite app_assoc.
    + simpl. now rewrite Hk, Hks.
Qed.

Lemma render_rows_ok rs i getFieldDecorator t :
  Forall (Forall (fun f => supported f = true)) rs ->
  exists formRows,
    render_rows i (map (map producer_of) rs) getFieldDecorator t =
      (Returned formRows, t ++ flat_map registration_keys (List.concat rs)) /\
    map elem_key (flat_map elem_children formRows) =
      map (fun f => str_key (cell_key f)) (List.concat rs).
Proof.
  intros H. revert i t. induction H as [|r rs Hr _ IH]; intros i t.
  - exists []. simpl. unfold ret. now rewrite app_nil_r.
  - destruct (render_cols_ok getFieldDecorator t Hr) as (es & Hes & Hks).
    destruct (IH (S i) (t ++ flat_map registration_keys r))
      as (formRows & Hrows & Hkrows).
    eexists. split.
    + cbn [map render_rows List.concat]. unfold bind.
      rewrite Hes, Hrows. unfold ret.
      rewrite flat_map_app, app_assoc. reflexivity.
    + cbn [flat_map elem_children List.concat].
      now rewrite !map_app, Hks, Hkrows.
Qed.

Lemma supported_rows schema :
  Forall (fun f => supported f = true) schema ->
  Forall (Forall (fun f => supported f = true)) (field_rows schema).
Proof.
  intros H. rewrite <- (concat_field_rows schema) in H.
  rewrite Forall_forall in *. intros r Hr. rewrite Forall_forall.
  intros f Hf. apply H, in_concat. eauto.
Qed.

Lemma run_render_ok schema getFieldDecorator :
  Forall (fun f => supported f = true) schema ->
  exists formRows,
    run_render schema getFieldDecorator =
      (Returned (Elem Form None [("horizontal", JBool true)] formRows),
       flat_map registration_keys schema) /\
    map elem_key (flat_map elem_children formRows) =
      map (fun f => str_key (cell_key f)) schema.
Proof.
  intros H. apply supported_rows in H.
  destruct (render_rows_ok 0 getFieldDecorator [] H) as (formRows & Hr & Hk).
  rewrite concat_field_rows in Hr, Hk. exists formRows. split; auto.
  unfold run_render. rewrite parse_fst, parse_plan_fst.
  unfold render, bind. rewrite Hr. reflexivity.
Qed.

(** A [null] among the columns makes the render function throw. *)
Lemma render_cols_null row getFieldDecorator t :
  In None row -> fst (render_cols row getFieldDecorator t) = TypeError.
Proof.
  revert t. induction row as [|c row IH]; intros t; [intros []|].
  intros [->|H]; cbn [render_cols]; unfold bind.
  - reflexivity.
  - destruct (call_column c getFieldDecorator t) as [[e|] t']; auto.
    specialize (IH t' H).
    destruct (render_cols row getFieldDecorator t') as [[es|] t'']; auto.
    discriminate.
Qed.

Lemma render_rows_null plan i getFieldDecorator t :
  (exists row, In row plan /\ In None row) ->
  fst (render_rows i plan getFieldDecorator t) = TypeError.
Proof.
  revert i t. induction plan as [|r plan IH]; intros i t (row & Hin & Hnull);
    [destruct Hin|].
  cbn [render_rows]. unfold bind. destruct Hin as [->|Hin].
  - pose proof (render_cols_null row getFieldDecorator t Hnull) as E.
    destruct (render_cols row getFieldDecorator t) as [[es|] t']; auto.
    discriminate.
  - destruct (render_cols r getFieldDecorator t) as [[es|] t']; auto.
    assert (E : fst (render_rows (S i) plan getFieldDecorator t') = TypeError)
      by (apply IH; eauto).
    destruct (render_rows (S i) plan getFieldDecorator t') as [[rs|] t''];
      auto. discriminate.
Qed.

Lemma render_null plan getFieldDecorator t :
  (exists row, In row plan /\ In None row) ->
  fst (render plan getFieldDecorator t) = TypeError.
Proof.
  intros H. unfold render, bind.
  pose proof (render_rows_null plan 0%nat getFieldDecorator t H) as E.
  destruct (render_rows 0 plan getFieldDecorator t) as [[rs|] t']; auto.
  discriminate.
Qed.

Lemma null_in_plan schema field :
  In field schema -> producer_of field = None ->
  exists row, In row (fst (parse_plan schema)) /\ In None row.
Proof.
  intros Hin Hnull. rewrite <- (concat_field_rows schema) in Hin.
  apply in_concat in Hin as (r & Hr & Hf).
  exists (map producer_of r). rewrite parse_plan_fst. split.
  - now apply in_map.
  - rewrite <- Hnull. now apply in_map.
Qed.

(** ** Derived keys *)

Lemma chars_app (s1 s2 : string) :
  chars (s1 ++ s2)%string = chars s1 ++ chars s2.
Proof.
  induction s1 as [|a s1 IH]; simpl; auto. unfold chars in *. now rewrite IH.
Qed.

Lemma chars_inj s1 s2 : chars s1 = chars s2 -> s1 = s2.
Proof.
  intros H. rewrite <- (string_of_list_ascii_of_string s1),
    <- (string_of_list_ascii_of_string s2). unfold chars in H. now rewrite H.
Qed.

Lemma suffix_inj (s1 s2 t : string) :
  (s1 ++ t)%string = (s2 ++ t)%string -> s1 = s2.
Proof.
  intros H. apply chars_inj. apply (f_equal chars) in H.
  rewrite !chars_app in H. now apply app_inv_tail in H.
Qed.

Lemma Begin_not_End (s1 s2 : string) :
  (s1 ++ "Begin")%string <> (s2 ++ "End")%string.
Proof.
  intros H. apply (f_equal chars) in H. rewrite !chars_app in H.
  change (chars "Begin") with (chars "Begi" ++ ["n"%char]) in H.
  change (chars "End") with (chars "En" ++ ["d"%char]) in H.
  rewrite !app_assoc in H. apply app_inj_tail in H as [_ H]. discriminate.
Qed.

Lemma suffix_grows (s t : string) : t <> ""%string -> s <> (s ++ t)%string.
Proof.
  intros Ht H. apply (f_equal chars) in H. rewrite chars_app in H.
  apply (f_equal (@List.length ascii)) in H. rewrite length_app in H.
  destruct t as [|a t]; [congruence|]. simpl in H. lia.
Qed.

Lemma keyBegin_inj f g : keyBegin f = keyBegin g -> key f = key g.
Proof. apply suffix_inj. Qed.

Lemma keyEnd_inj f g : keyEnd f = keyEnd g -> key f = key g.
Proof. apply suffix_inj. Qed.

Lemma no_derived_clash_In schema :
  no_derived_clash schema ->
  forall f g, In f schema -> In g schema -> showType f <> "between" ->
              key f <> keyBegin g /\ key f <> keyEnd g.
Proof.
  intros H f g Hf Hg Hb.
  apply In_nth_error in Hf as [i Hi]. apply In_nth_error in Hg as [j Hj].
  destruct (Nat.eq_dec i j) as [->|Hij].
  - rewrite Hi in Hj. injection Hj as <-.
    split; apply suffix_grows; discriminate.
  - eapply H; eauto.
Qed.

Lemma registration_keys_NoDup schema :
  NoDup (map key schema) ->
  (forall f g, In f schema -> In g schema -> showType f <> "between" ->
               key f <> keyBegin g /\ key f <> keyEnd g) ->
  NoDup (flat_map registration_keys schema).
Proof.
  induction schema as [|f l IH]; intros Hk Hc; [constructor|].
  inversion Hk as [|? ? Hnotin Hk']; subst.
  assert (Hl : NoDup (flat_map registration_keys l)).
  { apply IH; auto. intros; apply Hc; simpl; auto. }
  assert (Hfresh : forall g, In g l -> key f <> key g).
  { intros g Hg E. apply Hnotin. rewrite E. now apply in_map. }
  cbn [flat_map]. apply NoDup_app; auto.
  - unfold registration_keys. destruct (showType f === "between").
    + constructor; [|constructor; [intros []|constructor]].
      intros [E|[]]. symmetry in E. now apply Begin_not_End in E.
    + constructor; [intros []|constructor].
  - intros k Hkf Hkl. apply in_flat_map in Hkl as (g & Hg & Hkg).
    assert (Hfg := Hfresh g Hg).
    assert (Hc1 := Hc f g (or_introl eq_refl) (or_intror Hg)).
    assert (Hc2 := Hc g f (or_intror Hg) (or_introl eq_refl)).
    unfold registration_keys in Hkf, Hkg.
    destruct (String.eqb_spec (showType f) "between") as [Bf|Bf];
      destruct (String.eqb_spec (showType g) "between") as [Bg|Bg];
      simpl in Hkf, Hkg;
      repeat match goal with
             | H : _ \/ _ |- _ => destruct H
             | H : False |- _ => destruct H
             end; subst k.
    all: try (specialize (Hc1 Bf)); try (specialize (Hc2 Bg)).
    all: try (apply Hfg;
              first [ apply keyBegin_inj; congruence
                    | apply keyEnd_inj; congruence ]).
    all: try (eapply Begin_not_End; unfold keyBegin, keyEnd in *; eauto; fail).
    all: try (eapply Begin_not_End; unfold keyBegin, keyEnd in *;
              symmetry; eauto; fail).
    all: try (destruct Hc1; congruence).
    all: try (destruct Hc2; congruence).
Qed.

(** ** Claims about the rendered form *)

Lemma between_has_case_supported field :
  between_has_case field <-> supported field = true.
Proof.
  unfold between_has_case, supported.
  rewrite !orb_true_iff, negb_true_iff, !String.eqb_eq.
  destruct (String.eqb_spec (showType field) "between") as [B|B]; split.
  - intros H. destruct (H B) as [E|[E|E]]; auto.
  - intros [[[H|H]|H]|H] _; auto; discriminate.
  - auto.
  - intros _ H. contradiction.
Qed.

(** C5, amended. For a schema with pairwise distinct keys, in which no key
    of a non-between field is another field's key followed by 'Begin' or
    'End', and in which every between field has dataType 'int', 'float' or
    'datetime': the render function returns a form, the keys it passes to
    the registration function are the key of every non-between field and
    the two derived keys of every between field, in schema order, and no
    key is passed twice. *)
Theorem registration_keys_of_schema
        (schema : list Field) (getFieldDecorator : decorator)
        (Hkeys : NoDup (map key schema))
        (Hclash : no_derived_clash schema)
        (Hcases : Forall between_has_case schema) :
  (exists form, fst (run_render schema getFieldDecorator) = Returned form) /\
  snd (run_render schema getFieldDecorator) =
    flat_map registration_keys schema /\
  NoDup (flat_map registration_keys schema).
Proof.
  assert (S : Forall (fun f => supported f = true) schema).
  { eapply Forall_impl; [|exact Hcases].
    intros f. apply between_has_case_supported. }
  destruct (run_render_ok getFieldDecorator S) as (formRows & Hr & _).
  rewrite Hr. split; [|split].
  - eexists. reflexivity.
  - reflexivity.
  - apply registration_keys_NoDup; auto. now apply no_derived_clash_In.
Qed.

Ltac positions :=
  intros i j f g Hij Hi Hj Hb;
  repeat (destruct i as [|i]; simpl in Hi; try discriminate);
  repeat (destruct j as [|j]; simpl in Hj; try discriminate);
  try congruence;
  injection Hi as <-; injection Hj as <-;
  try (exfalso; apply Hb; reflexivity);
  split; discriminate.

Lemma registration_keys_of_schema_witness :
  (exists form, fst (run_render person_fields (fun _ e => e)) = Returned form) /\
  snd (run_render person_fields (fun _ e => e)) =
    ["name"; "ageBegin"; "ageEnd"; "bornBegin"; "bornEnd"]%string /\
  NoDup (flat_map registration_keys person_fields).
Proof.
  assert (Hkeys : NoDup (map key person_fields))
    by (repeat constructor; simpl; intuition discriminate).
  assert (Hclash : no_derived_clash person_fields)
    by (unfold person_fields; positions).
  assert (Hcases : Forall between_has_case person_fields)
    by (repeat apply Forall_cons; try apply Forall_nil;
        intros B; simpl in *; auto; discriminate).
  exact (registration_keys_of_schema (fun _ e => e) Hkeys Hclash Hcases).
Defined.

(** C5 as stated fails for a between field without a case in
    [transformBetween]: the render function throws at that field and its
    two derived keys are never registered. *)
Lemma registration_keys_between_text :
  NoDup (map key ranged_text_field) /\
  no_derived_clash ranged_text_field /\
  run_render ranged_text_field (fun _ e => e) = (TypeError, ["name"%string]) /\
  flat_map registration_keys ranged_text_field =
    ["name"; "ageBegin"; "ageEnd"]%string /\
  snd (run_render ranged_text_field (fun _ e => e)) <>
    flat_map registration_keys ranged_text_field.
Proof.
  split; [|split; [|split; [|split]]].
  - repeat constructor; simpl; intuition discriminate.
  - unfold ranged_text_field. positions.
  - reflexivity.
  - reflexivity.
  - discriminate.
Qed.

(** C6. For a schema of one select field with options
    [{key:'a',value:'A'},{key:'b',value:'B'}] the plan has one row with one
    producer; the render function registers the field's key once and
    returns a form of one row with one cell, whose widget is a dropdown
    without [multiple] offering 'A' bound to 'a' and then 'B' bound to
    'b'. *)
Theorem parse_single_select
        (k : string) (ttl : option string) (dt : string)
        (ph phb phe : option string) (getFieldDecorator : decorator) :
  let field :=
    mkField k ttl "select" dt [mkOption "a" "A"; mkOption "b" "B"] ph phb phe in
  let dropdown :=
    Elem Select None
      [("placeholder", JStr (js_or ph "请选择")); ("size", JStr "default")]
      [Elem Option (str_key "a") [("value", JStr "a")] [Text "A"];
       Elem Option (str_key "b") [("value", JStr "b")] [Text "B"]] in
  let cell :=
    Elem Col (str_key k) [("sm", JNum 8)]
      [Elem FormItem (str_key k)
         [("label", js_opt ttl); ("labelCol", span 10); ("wrapperCol", span 14)]
         [getFieldDecorator k dropdown]] in
  (exists p, fst (parse_plan [field]) = [[Some p]] /\
             p getFieldDecorator [] = (Returned cell, [k])) /\
  run_render [field] getFieldDecorator =
    (Returned (Elem Form None [("horizontal", JBool true)]
                 [Elem Row (Some (JNum 0)) [("gutter", JNum 16)] [cell]]),
     [k]).
Proof.
  intros field dropdown cell. split.
  - eexists. split; reflexivity.
  - reflexivity.
Qed.

Lemma between_numbers field getFieldDecorator t :
  showType field = "between" ->
  dataType field = "int" \/ dataType field = "float" ->
  exists p b e,
    fst (dispatch field) = Some p /\
    p getFieldDecorator t =
      (Returned
         (numbers_in_one_cell field
            (getFieldDecorator (keyBegin field) b)
            (getFieldDecorator (keyEnd field) e)),
       t ++ [keyBegin field; keyEnd field]) /\
    elem_type b = Some InputNumber /\ elem_type e = Some InputNumber.
Proof.
  intros B [E|E]; unfold dispatch, transformBetween; rewrite B, E;
    cbn [String.eqb Ascii.eqb Bool.eqb];
    do 3 eexists; (split; [reflexivity|]); run_producer;
    (split; [reflexivity|]); split; reflexivity.
Qed.

Lemma between_pickers field getFieldDecorator t :
  showType field = "between" -> dataType field = "datetime" ->
  exists p b e,
    fst (dispatch field) = Some p /\
    p getFieldDecorator t =
      (Returned
         (pickers_in_two_cells field
            (getFieldDecorator (keyBegin field) b)
            (getFieldDecorator (keyEnd field) e)),
       t ++ [keyBegin field; keyEnd field]) /\
    elem_type b = Some DatePicker /\ elem_type e = Some DatePicker.
Proof.
  intros B E; unfold dispatch, transformBetween; rewrite B, E;
    cbn [String.eqb Ascii.eqb Bool.eqb];
    do 3 eexists; (split; [reflexivity|]); run_producer;
    (split; [reflexivity|]); split; reflexivity.
Qed.

Lemma dispatch_some_supported field p :
  fst (dispatch field) = Some p -> supported field = true.
Proof.
  intros H. unfold supported.
  destruct (String.eqb_spec (showType field) "between") as [B|B]; auto.
  destruct (String.eqb_spec (dataType field) "int") as [Ei|Ei]; auto.
  destruct (String.eqb_spec (dataType field) "float") as [Ef|Ef]; auto.
  destruct (String.eqb_spec (dataType field) "datetime") as [Ed|Ed]; auto.
  rewrite (dispatch_unsupported field B Ei Ef Ed) in H. discriminate.
Qed.

Lemma is_col_cells e : is_col e = true -> cells_of e = [e].
Proof.
  destruct e as [s|[] k ps cs]; simpl; intros H; try discriminate; auto.
Qed.

(** The number of grid cells the producer of any field renders. *)
Lemma producer_cells field p getFieldDecorator t :
  fst (dispatch field) = Some p ->
  exists e t',
    p getFieldDecorator t = (Returned e, t') /\
    Forall (fun c => is_col c = true) (cells_of e) /\
    List.length (cells_of e) =
      if (showType field === "between") && (dataType field === "datetime")
      then 2%nat else 1%nat.
Proof.
  intros Hp. pose proof (dispatch_some_supported field Hp) as S.
  destruct ((showType field === "between") && (dataType field === "datetime"))
    eqn:C.
  - apply andb_true_iff in C as [B E]. apply String.eqb_eq in B, E.
    destruct (between_pickers field getFieldDecorator t B E)
      as (p' & b & e & Hp' & Hr & _).
    rewrite Hp in Hp'. injection Hp' as <-.
    do 2 eexists. split; [exact Hr|]. split; [|reflexivity].
    repeat constructor.
  - destruct (dispatch_renders field getFieldDecorator t S)
      as (p' & e & Hp' & Hr & _ & Hc).
    rewrite Hp in Hp'. injection Hp' as <-. rewrite C in Hc.
    exists e. eexists. split; [exact Hr|]. rewrite (is_col_cells e Hc).
    split; [|reflexivity]. repeat constructor. exact Hc.
Qed.

(** C7. A between field of dataType 'int' or 'float' renders two numeric
    inputs, registered under the key followed by 'Begin' and by 'End',
    side by side inside one outer cell; a between field of dataType
    'datetime' renders two date-time pickers in two cells of their own,
    which no cell encloses; and the producer of any field renders two
    grid cells exactly when the field is a between/datetime field, one
    cell otherwise. *)
Theorem between_layouts
        (field : Field) (getFieldDecorator : decorator) (t : list string)
        (B : showType field = "between") :
  (dataType field = "int" \/ dataType field = "float" ->
   exists p b e,
     fst (dispatch field) = Some p /\
     p getFieldDecorator t =
       (Returned
          (numbers_in_one_cell field
             (getFieldDecorator (keyBegin field) b)
             (getFieldDecorator (keyEnd field) e)),
        t ++ [keyBegin field; keyEnd field]) /\
     elem_type b = Some InputNumber /\ elem_type e = Some InputNumber) /\
  (dataType field = "datetime" ->
   exists p b e,
     fst (dispatch field) = Some p /\
     p getFieldDecorator t =
       (Returned
          (pickers_in_two_cells field
             (getFieldDecorator (keyBegin field) b)
             (getFieldDecorator (keyEnd field) e)),
        t ++ [keyBegin field; keyEnd field]) /\
     elem_type b = Some DatePicker /\ elem_type e = Some DatePicker) /\
  (forall b e,
      cells_of (numbers_in_one_cell field b e) =
        [numbers_in_one_cell field b e] /\
      List.length (cells_of (pickers_in_two_cells field b e)) = 2%nat /\
      is_col (pickers_in_two_cells field b e) = false) /\
  (forall any p,
      fst (dispatch any) = Some p ->
      exists e t',
        p getFieldDecorator t = (Returned e, t') /\
        Forall (fun c => is_col c = true) (cells_of e) /\
        List.length (cells_of e) =
          if (showType any === "between") && (dataType any === "datetime")
          then 2%nat else 1%nat).
Proof.
  split; [|split; [|split]].
  - now apply between_numbers.
  - now apply between_pickers.
  - intros b e. repeat split.
  - intros any p. apply producer_cells.
Qed.

Lemma between_layouts_witness :
  exists p b e,
    fst (dispatch (plain "age" "between" "int")) = Some p /\
    p (fun _ w => w) [] =
      (Returned (numbers_in_one_cell (plain "age" "between" "int") b e),
       ["ageBegin"; "ageEnd"]%string) /\
    elem_type b = Some InputNumber /\ elem_type e = Some InputNumber.
Proof.
  exact (proj1 (between_layouts (plain "age" "between" "int")
                                (fun _ w => w) [] eq_refl)
               (or_introl eq_refl)).
Defined.

(** ** Row shapes depend on the widths only *)

Lemma advance_blank st f g :
  spaceNeed f = spaceNeed g -> advance blank st f = advance blank st g.
Proof. intros E. unfold advance. now rewrite E. Qed.

Lemma fold_blank s1 s2 st :
  map spaceNeed s1 = map spaceNeed s2 ->
  fold_left (advance blank) s1 st = fold_left (advance blank) s2 st.
Proof.
  revert s2 st. induction s1 as [|f s1 IH]; intros [|g s2] st H;
    try discriminate; auto.
  simpl in H. injection H as Hfg H. simpl.
  rewrite (advance_blank st f g Hfg). now apply IH.
Qed.

Lemma lengths_blank schema :
  map (@List.length Field) (field_rows schema) =
  map (@List.length unit) (finish (fold_left (advance blank) schema init)).
Proof.
  rewrite field_rows_eq.
  change (fold_left (advance blank) schema init)
    with (fold_left (advance (fun x => blank ((fun f => f) x))) schema
                    (map_vars blank init)).
  rewrite fold_advance_map, finish_map, map_map.
  apply map_ext. intros r. now rewrite length_map.
Qed.

Lemma row_lengths_by_width s1 s2 :
  map spaceNeed s1 = map spaceNeed s2 ->
  map (@List.length column) (fst (parse_plan s1)) =
  map (@List.length column) (fst (parse_plan s2)).
Proof.
  intros H. rewrite !parse_plan_fst, !map_map.
  transitivity (map (@List.length Field) (field_rows s1));
    [apply map_ext; intros; apply length_map|].
  transitivity (map (@List.length Field) (field_rows s2));
    [|apply map_ext; intros; symmetry; apply length_map].
  now rewrite !lengths_blank, (fold_blank s1 s2 init H).
Qed.

(** C9. For a schema holding a between field whose dataType is not 'int',
    'float' or 'datetime': [parse] builds a plan with one column entry per
    field, [null] for that field; the field takes 8 units, so the rows have
    the lengths they would have with any other 8-unit field in its place;
    and the render function throws, whatever registration function and
    trace it is applied to. *)
Theorem null_column_breaks_render
        (schema : list Field) (field : Field)
        (getFieldDecorator : decorator) (t : list string)
        (Hin : In field schema)
        (B : showType field = "between")
        (Hi : dataType field <> "int") (Hf : dataType field <> "float")
        (Hd : dataType field <> "datetime") :
  List.concat (fst (parse_plan schema)) = map producer_of schema /\
  producer_of field = None /\
  (exists row, In row (fst (parse_plan schema)) /\ In None row) /\
  spaceNeed field = 8 /\
  (forall pre post other,
      schema = pre ++ field :: post -> spaceNeed other = 8 ->
      map (@List.length column) (fst (parse_plan (pre ++ other :: post))) =
      map (@List.length column) (fst (parse_plan schema))) /\
  fst (fst (parse schema) getFieldDecorator t) = TypeError.
Proof.
  assert (Hnull : producer_of field = None).
  { unfold producer_of. now rewrite dispatch_unsupported. }
  assert (H8 : spaceNeed field = 8).
  { apply not_datetime_between_eight. intros [_ E]. contradiction. }
  pose proof (null_in_plan schema field Hin Hnull) as Hrow.
  repeat split; auto.
  - rewrite parse_plan_fst, <- concat_map. now rewrite concat_field_rows.
  - intros pre post other -> Ho. apply row_lengths_by_width.
    rewrite !map_app. simpl. now rewrite Ho, H8.
  - rewrite parse_fst. now apply render_null.
Qed.

Lemma null_column_breaks_render_witness :
  fst (fst (parse ranged_text_field) (fun _ e => e) []) = TypeError.
Proof.
  refine (proj2 (proj2 (proj2 (proj2 (proj2
    (@null_column_breaks_render ranged_text_field
       (plain "age" "between" "varchar") (fun _ e => e) [] _ eq_refl _ _ _)))))).
  - simpl. auto.
  - discriminate.
  - discriminate.
  - discriminate.
Defined.

(** C4. On a schema with a between field of dataType 'unknown' followed by
    a text field, [parse] logs the error and puts [null] in the field's
    column position; the render function then throws instead of returning
    the form with the text field. *)
Theorem unknown_between_breaks_form (getFieldDecorator : decorator) :
  In (mkLog Error "unknown dataType: %s" (ArgStr "unknown"))
     (snd (parse unknown_between_fields)) /\
  (exists p, fst (parse_plan unknown_between_fields) = [[None; Some p]]) /\
  run_render unknown_between_fields getFieldDecorator = (TypeError, []).
Proof.
  split; [|split].
  - simpl. auto.
  - eexists. reflexivity.
  - reflexivity.
Qed.

Lemma NoDup_map_inj A B (h : A -> B) l x y :
  NoDup (map h l) -> In x l -> In y l -> h x = h y -> x = y.
Proof.
  induction l as [|a l IH]; intros H Hx Hy E; [destruct Hx|].
  inversion H as [|? ? Hnotin H']; subst.
  destruct Hx as [->|Hx], Hy as [->|Hy]; auto.
  - exfalso. apply Hnotin. rewrite E. now apply in_map.
  - exfalso. apply Hnotin. rewrite <- E. now apply in_map.
Qed.

Lemma cell_key_datetime_between f :
  showType f = "between" -> dataType f = "datetime" ->
  cell_key f = "datetimeBetweenDiv".
Proof. intros B D. unfold cell_key. now rewrite B, D. Qed.

Lemma producer_in_plan schema f :
  In f schema ->
  exists row, In row (fst (parse_plan schema)) /\ In (producer_of f) row.
Proof.
  intros Hin. rewrite <- (concat_field_rows schema) in Hin.
  apply in_concat in Hin as (r & Hr & Hf).
  exists (map producer_of r). rewrite parse_plan_fst.
  split; now apply in_map.
Qed.

(** C10. The container a between/datetime field renders has the key
    'datetimeBetweenDiv' whatever the field's key is. So two such fields
    of a schema, with different keys, leave in the plan two producers whose
    containers carry the same key although the four keys they register are
    distinct; and when the form renders, the keys of the elements placed in
    its rows are not free of duplicates. *)
Theorem datetime_between_constant_key
        (field : Field) (getFieldDecorator : decorator) (t : list string)
        (B : showType field = "between")
        (D : dataType field = "datetime") :
  (exists p e,
      producer_of field = Some p /\
      p getFieldDecorator t =
        (Returned e, t ++ [keyBegin field; keyEnd field]) /\
      elem_type e = Some Div /\
      elem_key e = str_key "datetimeBetweenDiv") /\
  (forall schema other,
      In field schema -> In other schema -> key other <> key field ->
      showType other = "between" -> dataType other = "datetime" ->
      (exists row row' p p' e e' t1 t2,
          In row (fst (parse_plan schema)) /\ In (Some p) row /\
          In row' (fst (parse_plan schema)) /\ In (Some p') row' /\
          producer_of field = Some p /\ producer_of other = Some p' /\
          p getFieldDecorator t = (Returned e, t1) /\
          p' getFieldDecorator t = (Returned e', t2) /\
          elem_key e = elem_key e' /\
          elem_key e = str_key "datetimeBetweenDiv") /\
      NoDup [keyBegin field; keyEnd field; keyBegin other; keyEnd other] /\
      (Forall between_has_case schema ->
       exists formRows,
         fst (run_render schema getFieldDecorator) =
           Returned (Elem Form None [("horizontal", JBool true)] formRows) /\
         ~ NoDup (map elem_key (flat_map elem_children formRows)))).
Proof.
  assert (Hone : forall f, showType f = "between" -> dataType f = "datetime" ->
            exists p e,
              producer_of f = Some p /\
              p getFieldDecorator t =
                (Returned e, t ++ [keyBegin f; keyEnd f]) /\
              elem_type e = Some Div /\
              elem_key e = str_key "datetimeBetweenDiv").
  { intros f Bf Df.
    destruct (between_pickers f getFieldDecorator t Bf Df)
      as (p & b & e & Hp & Hr & _).
    exists p. eexists. split; [exact Hp|]. split; [exact Hr|].
    split; reflexivity. }
  split; [now apply Hone|].
  intros schema other Hin Hin' Hk B' D'. split; [|split].
  - destruct (Hone field B D) as (p & e & Hp & Hr & _ & Hkey).
    destruct (Hone other B' D') as (p' & e' & Hp' & Hr' & _ & Hkey').
    destruct (producer_in_plan schema field Hin) as (row & Hrow & Hprod).
    destruct (producer_in_plan schema other Hin') as (row' & Hrow' & Hprod').
    rewrite Hp in Hprod. rewrite Hp' in Hprod'.
    exists row, row', p, p', e, e'. do 2 eexists.
    repeat (split; [eassumption|]). split; [congruence|assumption].
  - assert (N1 : keyBegin field <> keyEnd field) by apply Begin_not_End.
    assert (N2 : keyBegin other <> keyEnd other) by apply Begin_not_End.
    assert (N3 : keyBegin field <> keyEnd other) by apply Begin_not_End.
    assert (N4 : keyBegin other <> keyEnd field) by apply Begin_not_End.
    assert (N5 : keyBegin other <> keyBegin field)
      by (intros E; now apply keyBegin_inj in E).
    assert (N6 : keyEnd other <> keyEnd field)
      by (intros E; now apply keyEnd_inj in E).
    repeat constructor; simpl; intuition congruence.
  - intros Hcases.
    assert (S : Forall (fun f => supported f = true) schema).
    { eapply Forall_impl; [|exact Hcases].
      intros f. apply between_has_case_supported. }
    destruct (run_render_ok getFieldDecorator S) as (formRows & Hr & Hkeys).
    exists formRows. rewrite Hr. split; [reflexivity|].
    rewrite Hkeys. intros N. apply Hk. f_equal.
    apply (NoDup_map_inj (fun f => str_key (cell_key f)) schema other field N);
      auto.
    now rewrite !cell_key_datetime_between.
Qed.

Lemma datetime_between_constant_key_witness :
  exists formRows,
    fst (run_render two_date_ranges (fun _ e => e)) =
      Returned (Elem Form None [("horizontal", JBool true)] formRows) /\
    ~ NoDup (map elem_key (flat_map elem_children formRows)).
Proof.
  refine (proj2 (proj2 (proj2
    (datetime_between_constant_key (plain "born" "between" "datetime")
       (fun _ e => e) [] eq_refl eq_refl)
    two_date_ranges (plain "hired" "between" "datetime") _ _ _ eq_refl eq_refl))
    _).
  - simpl. auto.
  - simpl. auto.
  - discriminate.
  - repeat apply Forall_cons; try apply Forall_nil; intros _; simpl; auto.
Defined.

(** * Further properties of the render function *)

(** ** Render computations only append to the trace *)

Create HintDb framed.

Lemma framed_ret A (a : A) : framed (ret a).
Proof. exists (Returned a), []. intros t. unfold ret. now rewrite app_nil_r. Qed.

Lemma framed_throw A : framed (@throw A).
Proof. exists TypeError, []. intros t. unfold throw. now rewrite app_nil_r. Qed.

Lemma framed_call getFieldDecorator k e :
  framed (call_decorator getFieldDecorator k e).
Proof. exists (Returned (getFieldDecorator k e)), [k]. reflexivity. Qed.

Lemma framed_bind A B (m : R A) (k : A -> R B) :
  framed m -> (forall a, framed (k a)) -> framed (bind m k).
Proof.
  intros (o & ks & Hm) Hk. destruct o as [a|].
  - destruct (Hk a) as (o' & ks' & Hka). exists o', (ks ++ ks').
    intros t. unfold bind. now rewrite Hm, Hka, app_assoc.
  - exists TypeError, ks. intros t. unfold bind. now rewrite Hm.
Qed.

#[local] Hint Resolve framed_ret framed_throw framed_call framed_bind : framed.

Lemma framed_colWrapper formItem field getFieldDecorator :
  framed (formItem getFieldDecorator) ->
  framed (colWrapper formItem field getFieldDecorator).
Proof. intros H. unfold colWrapper. auto with framed. Qed.

Lemma framed_betweenColWrapper b e field getFieldDecorator :
  framed (b getFieldDecorator) -> framed (e getFieldDecorator) ->
  framed (betweenColWrapper b e field getFieldDecorator).
Proof. intros Hb He. unfold betweenColWrapper. auto with framed. Qed.

Lemma framed_datetimeBetween field getFieldDecorator :
  framed (datetimeBetween field getFieldDecorator).
Proof. unfold datetimeBetween. auto with framed. Qed.

#[local] Hint Resolve framed_colWrapper framed_betweenColWrapper
  framed_datetimeBetween : framed.

Lemma framed_column field getFieldDecorator :
  framed (call_column (producer_of field) getFieldDecorator).
Proof.
  unfold producer_of, dispatch, transformSelect, transformRadio,
    transformCheckbox, transformMultiSelect, transformBetween, transformNormal.
  repeat match goal with
         | |- context [if ?b then _ else _] => destruct b
         end; cbn [fst call_column]; auto with framed.
Qed.

Lemma framed_render_cols row getFieldDecorator :
  Forall (fun c => framed (call_column c getFieldDecorator)) row ->
  framed (render_cols row getFieldDecorator).
Proof.
  induction 1 as [|c row Hc _ IH]; cbn [render_cols]; auto with framed.
Qed.

Lemma framed_render_rows plan i getFieldDecorator :
  Forall (Forall (fun c => framed (call_column c getFieldDecorator))) plan ->
  framed (render_rows i plan getFieldDecorator).
Proof.
  intros H. revert i. induction H as [|r plan Hr _ IH]; intros i;
    cbn [render_rows]; auto with framed.
  apply framed_bind; [now apply framed_render_cols|].
  intros formCols. auto with framed.
Qed.


(** ** Rows do not change what is registered *)

Lemma render_cols_app r1 r2 getFieldDecorator t :
  render_cols (r1 ++ r2) getFieldDecorator t =
  match render_cols r1 getFieldDecorator t with
  | (Returned es1, t1) =>
      match render_cols r2 getFieldDecorator t1 with
      | (Returned es2, t2) => (Returned (es1 ++ es2), t2)
      | (TypeError, t2) => (TypeError, t2)
      end
  | (TypeError, t1) => (TypeError, t1)
  end.
Proof.
  revert t. induction r1 as [|c r1 IH]; intros t.
  - cbn [app render_cols ret].
    now destruct (render_cols r2 getFieldDecorator t) as [[es|] t'].
  - cbn [app render_cols]. unfold bind, ret.
    destruct (call_column c getFieldDecorator t) as [[e|] t1]; auto.
    rewrite IH.
    destruct (render_cols r1 getFieldDecorator t1) as [[es1|] t2]; auto.
    now destruct (render_cols r2 getFieldDecorator t2) as [[es2|] t3].
Qed.

Lemma effect_thrown A (x : outcome A * list string) tr :
  effect x = (true, tr) -> x = (TypeError, tr).
Proof.
  destruct x as [[a|] t]; unfold effect; simpl; intros H;
    now inversion H.
Qed.

Lemma render_rows_effect plan i getFieldDecorator t :
  effect (render_rows i plan getFieldDecorator t) =
  effect (render_cols (List.concat plan) getFieldDecorator t).
Proof.
  revert i t. induction plan as [|r plan IH]; intros i t; [reflexivity|].
  cbn [render_rows List.concat]. rewrite render_cols_app. unfold bind.
  destruct (render_cols r getFieldDecorator t) as [[es|] t1]; auto.
  specialize (IH (S i) t1).
  destruct (render_rows (S i) plan getFieldDecorator t1) as [[rs|] t2],
    (render_cols (List.concat plan) getFieldDecorator t1) as [[cs|] t3];
    unfold effect in *; simpl in *; congruence.
Qed.

Lemma render_effect schema getFieldDecorator t :
  effect (fst (parse schema) getFieldDecorator t) =
  effect (render_cols (map producer_of schema) getFieldDecorator t).
Proof.
  rewrite parse_fst. unfold render, bind.
  pose proof (render_rows_effect (fst (parse_plan schema)) 0
                                 getFieldDecorator t) as H.
  rewrite parse_plan_fst, <- concat_map, concat_field_rows in H.
  rewrite parse_plan_fst.
  destruct (render_rows 0 (map (map producer_of) (field_rows schema))
                        getFieldDecorator t) as [[rs|] t1];
    unfold effect in *; simpl in *; congruence.
Qed.

Lemma unsupported_null field :
  ~ between_has_case field -> producer_of field = None.
Proof.
  intros H. unfold between_has_case in H. unfold producer_of.
  destruct (String.eqb_spec (showType field) "between") as [B|B];
    [|exfalso; apply H; intros C; contradiction].
  rewrite dispatch_unsupported; auto; intros E; apply H; auto.
Qed.

Lemma has_case_supported_all schema :
  Forall between_has_case schema ->
  Forall (fun f => supported f = true) schema.
Proof.
  apply Forall_impl. intros f. apply between_has_case_supported.
Qed.

(** X4. When the render function throws, it has registered the keys of
    the fields that precede the first between field without a case, in
    schema order, and nothing else; the rows the fields were packed into
    play no part in it. *)
Theorem render_stops_at_first_null
        (pre post : list Field) (field : Field)
        (getFieldDecorator : decorator) (t : list string)
        (Hpre : Forall between_has_case pre)
        (Hfield : ~ between_has_case field) :
  fst (parse (pre ++ field :: post)) getFieldDecorator t =
  (TypeError, t ++ flat_map registration_keys pre).
Proof.
  apply effect_thrown. rewrite render_effect, map_app, render_cols_app.
  destruct (render_cols_ok getFieldDecorator t (has_case_supported_all Hpre))
    as (es & Hes & _).
  rewrite Hes. cbn [map render_cols]. rewrite (unsupported_null Hfield).
  reflexivity.
Qed.

Lemma render_stops_at_first_null_witness :
  fst (parse ([plain "name" "" "varchar"; plain "size" "between" "float"]
              ++ plain "age" "between" "text" :: [plain "city" "select" ""]))
      (fun _ e => e) [] =
  (TypeError, ["name"; "sizeBegin"; "sizeEnd"]%string).
Proof.
  refine (@render_stops_at_first_null
            [plain "name" "" "varchar"; plain "size" "between" "float"]
            [plain "city" "select" ""] (plain "age" "between" "text")
            (fun _ e => e) [] _ _).
  - repeat apply Forall_cons; try apply Forall_nil;
      intros B; simpl in *; auto; discriminate.
  - intros H. destruct (H eq_refl) as [E|[E|E]]; discriminate.
Defined.

(** X3. The render function throws exactly for the schemas that hold a
    between field whose dataType is not 'int', 'float' or 'datetime'; for
    all others it returns a form. *)
Theorem render_throws_iff (schema : list Field) (getFieldDecorator : decorator) :
  (fst (run_render schema getFieldDecorator) = TypeError <->
   exists field, In field schema /\ ~ between_has_case field) /\
  ((exists form, fst (run_render schema getFieldDecorator) = Returned form) <->
   Forall between_has_case schema).
Proof.
  assert (Hdec : Forall between_has_case schema \/
                 exists field, In field schema /\ ~ between_has_case field).
  { induction schema as [|f s IH]; [left; constructor|].
    destruct (supported f) eqn:S.
    - apply between_has_case_supported in S. destruct IH as [IH|(g & Hg & Hn)].
      + left. now constructor.
      + right. exists g. simpl. auto.
    - right. exists f. split; [simpl; auto|]. intros C.
      apply between_has_case_supported in C. congruence. }
  assert (Hok : Forall between_has_case schema ->
                exists form,
                  fst (run_render schema getFieldDecorator) = Returned form).
  { intros H. apply has_case_supported_all in H.
    destruct (run_render_ok getFieldDecorator H) as (rows & Hr & _).
    rewrite Hr. eexists. reflexivity. }
  assert (Hbad : (exists field, In field schema /\ ~ between_has_case field) ->
                 fst (run_render schema getFieldDecorator) = TypeError).
  { intros (f & Hin & Hn). unfold run_render. rewrite parse_fst.
    apply render_null. apply null_in_plan with f; auto.
    now apply unsupported_null. }
  split; split.
  - intros E. destruct Hdec as [H|H]; auto.
    destruct (Hok H) as [form Hf]. congruence.
  - exact Hbad.
  - intros [form Hf]. destruct Hdec as [H|H]; auto.
    rewrite (Hbad H) in Hf. discriminate.
  - exact Hok.
Qed.

(** ** The structure of the rendered form *)

Lemma dispatch_cells8 field getFieldDecorator :
  supported field = true ->
  exists p e,
    producer_of field = Some p /\
    p getFieldDecorator [] = (Returned e, registration_keys field) /\
    Forall cell8 (cells_of e).
Proof.
  intros S. unfold producer_of.
  assert (C8 : forall k cs, cell8 (Elem Col k [("sm", JNum 8)] cs))
    by (intros k cs; exists k, cs; reflexivity).
  destruct (String.eqb_spec (showType field) "between") as [B|B].
  - unfold supported in S. unfold dispatch, registration_keys, transformBetween.
    rewrite B in *. cbn [String.eqb Ascii.eqb Bool.eqb negb orb] in *.
    case_str (dataType field) "int";
      [|case_str (dataType field) "float";
        [|case_str (dataType field) "datetime"]].
    1-3: do 2 eexists; (split; [reflexivity|]); run_producer;
         (split; [reflexivity|]); cbn [cells_of elem_children];
         repeat constructor; apply C8.
    cbn [orb] in S. discriminate.
  - apply String.eqb_neq in B.
    unfold dispatch, registration_keys, transformNormal. rewrite B.
    repeat match goal with
           | |- context [if ?b then _ else _] => destruct b
           end;
      do 2 eexists; (split; [reflexivity|]); run_producer;
      (split; [reflexivity|]); cbn [cells_of]; repeat constructor; apply C8.
Qed.

Lemma supported_cell_of field getFieldDecorator :
  supported field = true -> exists e, cell_of getFieldDecorator field e.
Proof.
  intros S.
  destruct (dispatch_renders field getFieldDecorator [] S)
    as (p & e & Hp & Hr & Hk & Hc).
  destruct (dispatch_cells8 field getFieldDecorator S)
    as (p' & e' & Hp' & Hr' & H8).
  unfold producer_of in Hp'. rewrite Hp in Hp'. injection Hp' as <-.
  cbn [app] in Hr. rewrite Hr in Hr'. injection Hr' as <-.
  destruct (framed_column field getFieldDecorator) as (o & ks & Hframe).
  assert (E := Hframe []). unfold producer_of in E. rewrite Hp in E.
  cbn [call_column app] in E. rewrite Hr in E. injection E as <- <-.
  exists e. repeat split; auto.
  unfold spaceNeed. fold (datetime_between field).
  destruct (producer_cells field getFieldDecorator [] Hp)
    as (e2 & t2 & Hr2 & _ & Hlen).
  rewrite Hr in Hr2. injection Hr2 as <- _. rewrite Hlen.
  unfold datetime_between.
  now destruct ((showType field === "between")
                && (dataType field === "datetime")).
Qed.

Lemma cells_exist getFieldDecorator fs :
  Forall (fun f => supported f = true) fs ->
  exists es, Forall2 (cell_of getFieldDecorator) fs es.
Proof.
  induction 1 as [|f fs Hf _ [es IH]]; [exists []; constructor|].
  destruct (supported_cell_of f getFieldDecorator Hf) as [e He].
  exists (e :: es). now constructor.
Qed.

Lemma rows_of_cells_exist getFieldDecorator rs :
  Forall (Forall (fun f => supported f = true)) rs ->
  exists ess, Forall2 (Forall2 (cell_of getFieldDecorator)) rs ess.
Proof.
  induction 1 as [|r rs Hr _ [ess IH]]; [exists []; constructor|].
  destruct (cells_exist getFieldDecorator Hr) as [es Hes].
  exists (es :: ess). now constructor.
Qed.

Lemma render_cols_as getFieldDecorator fs es :
  Forall2 (cell_of getFieldDecorator) fs es ->
  forall t, render_cols (map producer_of fs) getFieldDecorator t =
            (Returned es, t ++ flat_map registration_keys fs).
Proof.
  induction 1 as [|f e fs es [He _] _ IH]; intros t.
  - cbn. unfold ret. now rewrite app_nil_r.
  - cbn [map render_cols flat_map]. unfold bind.
    rewrite (He t), IH. unfold ret. now rewrite app_assoc.
Qed.

Lemma render_rows_as getFieldDecorator rs ess :
  Forall2 (Forall2 (cell_of getFieldDecorator)) rs ess ->
  forall i t,
    render_rows i (map (map producer_of) rs) getFieldDecorator t =
    (Returned (row_elements i ess),
     t ++ flat_map registration_keys (List.concat rs)).
Proof.
  induction 1 as [|r es rs ess Hr _ IH]; intros i t.
  - cbn. unfold ret. now rewrite app_nil_r.
  - cbn [map render_rows List.concat row_elements]. unfold bind.
    rewrite (render_cols_as Hr), IH. unfold ret.
    now rewrite flat_map_app, app_assoc.
Qed.

Lemma render_structure schema getFieldDecorator :
  Forall between_has_case schema ->
  exists ess,
    Forall2 (Forall2 (cell_of getFieldDecorator)) (field_rows schema) ess /\
    forall t, fst (parse schema) getFieldDecorator t =
              (Returned (form_element ess),
               t ++ flat_map registration_keys schema).
Proof.
  intros H. apply has_case_supported_all, supported_rows in H.
  destruct (rows_of_cells_exist getFieldDecorator H) as [ess Hess].
  exists ess. split; auto. intros t.
  rewrite parse_fst, parse_plan_fst. unfold render, bind.
  rewrite (render_rows_as Hess), concat_field_rows. reflexivity.
Qed.

Lemma has_case_person_fields : Forall between_has_case person_fields.
Proof.
  repeat apply Forall_cons; try apply Forall_nil;
    intros B; simpl in *; auto; discriminate.
Defined.

(** X6. When every between field has a case, the render function returns,
    from any trace, the [Form] whose children are one [Row] per row of the
    plan, keyed by its index with gutter 16, holding the elements of the
    row's fields in schema order, and registers the fields' keys in schema
    order. *)
Theorem rendered_form_structure
        (schema : list Field) (getFieldDecorator : decorator)
        (H : Forall between_has_case schema) :
  exists ess,
    Forall2 (Forall2 (cell_of getFieldDecorator)) (field_rows schema) ess /\
    forall t, fst (parse schema) getFieldDecorator t =
              (Returned (form_element ess),
               t ++ flat_map registration_keys schema).
Proof. now apply render_structure. Qed.

Lemma rendered_form_structure_witness :
  exists ess,
    Forall2 (Forall2 (cell_of (fun _ e => e))) (field_rows person_fields) ess /\
    forall t, fst (parse person_fields) (fun _ e => e) t =
              (Returned (form_element ess),
               t ++ flat_map registration_keys person_fields).
Proof.
  exact (rendered_form_structure (fun _ e => e) has_case_person_fields).
Defined.

Lemma cells_width getFieldDecorator r es :
  Forall2 (cell_of getFieldDecorator) r es ->
  Forall cell8 (flat_map cells_of es) /\
  8 * Z.of_nat (List.length (flat_map cells_of es)) = row_width r.
Proof.
  induction 1 as [|f e r es (_ & _ & H8 & Hw) _ [IH8 IHw]]; cbn [flat_map].
  - split; [constructor|reflexivity].
  - split; [apply Forall_app; auto|].
    rewrite length_app, Nat2Z.inj_add.
    change (row_width (f :: r)) with (spaceNeed f + row_width r). lia.
Qed.

(** X7. The widths [parse] counts are the widths that are rendered: in a
    form that renders, the grid cells of every row are [Col]s of 8 units,
    8 units per cell add up to the width counted for the row, and so no
    rendered row has more than 3 cells. *)
Theorem rendered_rows_fit_grid
        (schema : list Field) (getFieldDecorator : decorator)
        (H : Forall between_has_case schema) :
  exists ess,
    fst (run_render schema getFieldDecorator) = Returned (form_element ess) /\
    Forall2 (fun row es =>
               Forall cell8 (flat_map cells_of es) /\
               8 * Z.of_nat (List.length (flat_map cells_of es)) =
                 row_width row /\
               (List.length (flat_map cells_of es) <= 3)%nat)
            (field_rows schema) ess.
Proof.
  destruct (render_structure getFieldDecorator H) as (ess & Hess & Hr).
  exists ess. split; [unfold run_render; rewrite Hr; reflexivity|].
  pose proof (field_rows_fit schema) as Hfit. clear Hr.
  revert Hess Hfit. generalize (field_rows schema) as rs.
  intros rs Hess. induction Hess as [|r es rs ess Hres _ IH]; intros Hfit;
    constructor.
  - destruct (cells_width Hres) as [H8 Hw]. inversion Hfit; subst.
    repeat split; auto. lia.
  - apply IH. now inversion Hfit.
Qed.

Lemma rendered_rows_fit_grid_witness :
  exists ess,
    fst (run_render person_fields (fun _ e => e)) =
      Returned (form_element ess) /\
    Forall2 (fun row es =>
               Forall cell8 (flat_map cells_of es) /\
               8 * Z.of_nat (List.length (flat_map cells_of es)) =
                 row_width row /\
               (List.length (flat_map cells_of es) <= 3)%nat)
            (field_rows person_fields) ess.
Proof.
  exact (rendered_rows_fit_grid (fun _ e => e) has_case_person_fields).
Defined.

(** ** The log *)

Lemma dispatch_log field :
  exists format,
    snd (dispatch field) =
    [mkLog (if supported field then Debug else Error) format
           (if supported field then ArgField field
            else ArgStr (dataType field))].
Proof.
  unfold supported.
  destruct (String.eqb_spec (showType field) "between") as [B|B].
  - unfold dispatch, transformBetween. rewrite B.
    cbn [String.eqb Ascii.eqb Bool.eqb negb orb].
    destruct (dataType field === "int"); [eexists; reflexivity|].
    destruct (dataType field === "float"); [eexists; reflexivity|].
    destruct (dataType field === "datetime"); eexists; reflexivity.
  - apply String.eqb_neq in B. unfold dispatch, transformNormal. rewrite B.
    cbn [negb orb].
    repeat match goal with
           | |- context [if ?b then _ else _] => destruct b
           end; eexists; reflexivity.
Qed.

(** X2. [parse] writes exactly one log entry per field, in schema order: a
    debug entry carrying the field for every field it has a widget for, an
    error entry carrying the dataType for every between field without a
    case. *)
Theorem parse_logs_each_field (schema : list Field) :
  map lvl (snd (parse schema)) =
    map (fun field => if supported field then Debug else Error) schema /\
  map arg (snd (parse schema)) =
    map (fun field => if supported field then ArgField field
                      else ArgStr (dataType field)) schema /\
  List.length (snd (parse schema)) = List.length schema.
Proof.
  rewrite parse_snd.
  induction schema as [|f schema (IHl & IHa & IHn)]; [repeat split|].
  destruct (dispatch_log f) as [format Hf].
  cbn [flat_map map]. rewrite Hf. cbn [app map List.length lvl arg].
  now rewrite IHl, IHa, IHn.
Qed.

(** ** The empty schema, and the loop variables *)

(** X1. The plan has no row exactly when the schema is empty; the render
    function then returns the [Form] without children and registers
    nothing, and nothing was logged. *)
Theorem parse_empty_schema
        (schema : list Field) (getFieldDecorator : decorator)
        (t : list string) :
  (fst (parse_plan schema) = [] <-> schema = []) /\
  (schema = [] ->
   snd (parse schema) = [] /\
   fst (parse schema) getFieldDecorator t =
     (Returned (Elem Form None [("horizontal", JBool true)] []), t)).
Proof.
  split; [split|].
  - intros E. pose proof (concat_field_rows schema) as C.
    rewrite parse_plan_fst in E. apply map_eq_nil in E. now rewrite E in C.
  - intros ->. reflexivity.
  - intros ->. split; reflexivity.
Qed.

Lemma spaceNeed_datetime_between f :
  spaceNeed f = if datetime_between f then 16 else 8.
Proof. reflexivity. Qed.

Lemma row_width_count r :
  row_width r =
  8 * Z.of_nat (List.length r)
  + 8 * Z.of_nat (List.length (filter datetime_between r)).
Proof.
  induction r as [|f r IH]; [reflexivity|].
  change (row_width (f :: r)) with (spaceNeed f + row_width r).
  rewrite IH, spaceNeed_datetime_between. cbn [filter List.length].
  destruct (datetime_between f); cbn [List.length]; lia.
Qed.

(** X13. The remaining capacity never leaves the grid: after any schema
    [spaceLeft] is 24 minus the width of the row being filled, it is
    never negative, and once a field has been read it is 0, 8 or 16. *)
Theorem spaceLeft_stays_in_grid (schema : list Field) :
  spaceLeft (fst (forEach dispatch schema (init, []))) =
    24 - row_width (current_row schema) /\
  0 <= spaceLeft (fst (forEach dispatch schema (init, []))) <= 24 /\
  (schema <> [] ->
   In (spaceLeft (fst (forEach dispatch schema (init, [])))) [0; 8; 16]).
Proof.
  rewrite vars_of_forEach. unfold map_vars. cbn [spaceLeft].
  rewrite current_row_cols.
  destruct (packed_field_vars schema) as [_ _ Heq Hnn _].
  pose proof (row_width_nonneg (cols (field_vars schema))) as Hw.
  split; [exact Heq|]. split; [lia|].
  intros Hne. rewrite Heq in *.
  assert (Hc : cols (field_vars schema) <> []).
  { destruct schema as [|f s _] using rev_ind; [congruence|].
    rewrite field_vars_snoc. apply packed_advance, packed_field_vars. }
  apply row_width_pos in Hc.
  rewrite row_width_count in *.
  set (n := (List.length (cols (field_vars schema))
             + List.length (filter datetime_between (cols (field_vars schema))))%nat).
  assert (E : 8 * Z.of_nat (List.length (cols (field_vars schema)))
              + 8 * Z.of_nat (List.length
                      (filter datetime_between (cols (field_vars schema))))
              = 8 * Z.of_nat n) by (unfold n; lia).
  rewrite E in *. clearbody n.
  assert (Hn : (n = 1 \/ n = 2 \/ n = 3)%nat) by lia.
  destruct Hn as [->|[->| ->]]; simpl; auto.
Qed.

(** ** How many fields share a row *)

Lemma filter_length_le A (p : A -> bool) l :
  (List.length (filter p l) <= List.length l)%nat.
Proof.
  induction l as [|a l IH]; simpl; auto. destruct (p a); simpl; lia.
Qed.

Lemma concat_length_bounds A (ls : list (list A)) :
  Forall (fun r => (1 <= List.length r <= 3)%nat) ls ->
  (List.length ls <= List.length (List.concat ls) <= 3 * List.length ls)%nat.
Proof.
  induction 1 as [|r ls Hr _ IH]; simpl; [lia|]. rewrite length_app. lia.
Qed.

Lemma field_rows_columns schema :
  Forall (fun r => (1 <= List.length r <= 3)%nat /\
                   (List.length (filter datetime_between r) <= 1)%nat /\
                   (List.length (filter datetime_between r) = 1%nat ->
                    List.length r <= 2)%nat)
         (field_rows schema).
Proof.
  pose proof (field_rows_fit schema) as Hfit.
  pose proof (field_rows_inhabited schema) as Hin.
  rewrite Forall_forall in *. intros r Hr.
  specialize (Hfit r Hr). specialize (Hin r Hr).
  rewrite row_width_count in Hfit.
  pose proof (filter_length_le datetime_between r).
  destruct r; [congruence|]. simpl List.length in *. lia.
Qed.

(** X8. For every schema, each row of the plan has 1 to 3 columns, so the
    plan has at most as many rows as the schema has fields and at least a
    third of that; no row holds two between/datetime fields, and a row
    with one holds at most one other field. *)
Theorem rows_hold_few_fields (schema : list Field) :
  (forall row, In row (fst (parse_plan schema)) ->
               (1 <= List.length row <= 3)%nat) /\
  (List.length (fst (parse_plan schema)) <= List.length schema
   <= 3 * List.length (fst (parse_plan schema)))%nat /\
  (forall row, In row (field_rows schema) ->
               (List.length (filter datetime_between row) <= 1)%nat /\
               (List.length (filter datetime_between row) = 1%nat ->
                List.length row <= 2)%nat).
Proof.
  pose proof (field_rows_columns schema) as H.
  split; [|split].
  - intros row Hr. rewrite parse_plan_fst in Hr.
    apply in_map_iff in Hr as (r & <- & Hr). rewrite length_map.
    rewrite Forall_forall in H. now apply H.
  - rewrite parse_plan_fst, length_map.
    rewrite <- (concat_field_rows schema) at 2 3.
    apply concat_length_bounds. eapply Forall_impl; [|exact H].
    intros r Hr. apply Hr.
  - intros row Hr. rewrite Forall_forall in H. now apply H.
Qed.

(** ** Rows are closed only when they must *)

Lemma adjacent_snoc P l a x :
  adjacent P ((l ++ [a]) ++ [x]) <-> adjacent P (l ++ [a]) /\ P a x.
Proof.
  induction l as [|r l IH].
  - simpl. tauto.
  - change ((r :: l) ++ [a]) with (r :: (l ++ [a])).
    change ((r :: l ++ [a]) ++ [x]) with (r :: ((l ++ [a]) ++ [x])).
    cbn [adjacent]. rewrite IH.
    destruct l as [|r' l]; simpl; tauto.
Qed.

Lemma adjacent_last P l a a' :
  (forall r, P r a -> P r a') ->
  adjacent P (l ++ [a]) -> adjacent P (l ++ [a']).
Proof.
  intros HP. induction l as [|r l IH]; [simpl; auto|].
  change ((r :: l) ++ [a]) with (r :: (l ++ [a])).
  change ((r :: l) ++ [a']) with (r :: (l ++ [a'])).
  cbn [adjacent]. intros [H1 H2]. split; auto.
  destruct l as [|r' l]; simpl in *; auto.
Qed.

Lemma closed_by_snoc r a f : closed_by r a -> closed_by r (a ++ [f]).
Proof. destruct a; simpl; [intros []|auto]. Qed.

Lemma rows_split_last schema :
  field_rows schema = [] \/
  field_rows schema = removelast (field_rows schema) ++ [current_row schema].
Proof.
  unfold current_row. destruct (field_rows schema) as [|r l] eqn:E; auto.
  right. apply app_removelast_last. discriminate.
Qed.

(** X9. The packing is greedy: between any two neighbouring rows of the
    plan, the first field of the later row is wider than what the earlier
    row left free of its 24 units, so no row was closed while the next
    field still fitted. *)
Theorem rows_closed_only_when_full (schema : list Field) :
  adjacent closed_by (field_rows schema) /\
  fst (parse_plan schema) = map (map producer_of) (field_rows schema).
Proof.
  split; [|apply parse_plan_fst].
  induction schema as [|f schema IH] using rev_ind; [exact I|].
  rewrite field_rows_snoc.
  destruct (rows_split_last schema) as [E|E].
  - unfold current_row. rewrite E.
    match goal with
    | |- context [if ?b then _ else _] => destruct b
    end; simpl; auto.
  - destruct (24 - row_width (current_row schema) <? spaceNeed f) eqn:C.
    + rewrite E. apply adjacent_snoc. rewrite <- E. split; auto.
      simpl. now apply Z.ltb_lt.
    + rewrite E in IH. revert IH. apply adjacent_last.
      intros r. apply closed_by_snoc.
Qed.

(** X14. Fields added at the end of a schema leave the closed rows alone:
    the plan of the longer schema starts with every row of the shorter
    one's plan except its last, which may still grow. *)
Theorem closed_rows_are_stable (schema more : list Field) :
  exists tl,
    field_rows (schema ++ more) = removelast (field_rows schema) ++ tl /\
    fst (parse_plan (schema ++ more)) =
      removelast (fst (parse_plan schema)) ++ map (map producer_of) tl.
Proof.
  assert (H : exists tl,
             field_rows (schema ++ more) =
               removelast (field_rows schema) ++ tl /\
             (field_rows schema <> [] -> tl <> [])).
  { induction more as [|f more (tl & IH & Hne)] using rev_ind.
    - rewrite app_nil_r. destruct (rows_split_last schema) as [E|E].
      + exists []. rewrite E. split; auto.
      + exists [current_row schema]. split; auto. discriminate.
    - rewrite app_assoc, field_rows_snoc.
      destruct (24 - row_width (current_row (schema ++ more)) <? spaceNeed f).
      + exists (tl ++ [[f]]). rewrite IH, app_assoc. split; auto.
        intros _ C. now apply app_eq_nil in C as [_ C].
      + exists (removelast tl ++ [current_row (schema ++ more) ++ [f]]).
        split; [|intros _ C; now apply app_eq_nil in C as [_ C]].
        rewrite app_assoc. f_equal. rewrite IH.
        destruct tl as [|x tl].
        * destruct (field_rows schema) as [|r rs] eqn:E; [reflexivity|].
          exfalso. apply Hne; auto. discriminate.
        * apply removelast_app. discriminate. }
  destruct H as (tl & H & _). exists tl. split; auto.
  rewrite !parse_plan_fst, H, map_app. f_equal.
  generalize (field_rows schema) as rs.
  induction rs as [|r [|r' rs] IH]; auto.
  change (removelast (r :: r' :: rs)) with (r :: removelast (r' :: rs)).
  cbn [map]. cbn [map] in IH. rewrite IH. reflexivity.
Qed.

(** ** Single fields *)

(** X10. A field that is not a between field always gets a producer,
    whatever its showType and dataType: it returns one [Col] of 8 units
    keyed by the field's key, holding a [FormItem] labelled with the
    title around a widget decorated under the field's key, and registers
    exactly that key. *)
Theorem plain_field_always_renders
        (field : Field) (getFieldDecorator : decorator)
        (B : showType field <> "between") :
  exists p widget,
    producer_of field = Some p /\
    forall t,
      p getFieldDecorator t =
      (Returned
         (Elem Col (str_key (key field)) [("sm", JNum 8)]
            [Elem FormItem (str_key (key field))
               [("label", js_opt (title field));
                ("labelCol", span 10); ("wrapperCol", span 14)]
               [getFieldDecorator (key field) widget]]),
       t ++ [key field]).
Proof.
  apply String.eqb_neq in B.
  unfold producer_of, dispatch, transformNormal. rewrite B.
  repeat match goal with
         | |- context [if ?b then _ else _] => destruct b
         end; do 2 eexists; (split; [reflexivity|]); intros t; reflexivity.
Qed.

Lemma plain_field_always_renders_witness :
  exists p widget,
    producer_of (plain "note" "textarea" "json") = Some p /\
    forall t,
      p (fun _ e => e) t =
      (Returned
         (Elem Col (str_key "note") [("sm", JNum 8)]
            [Elem FormItem (str_key "note")
               [("label", JUndefined);
                ("labelCol", span 10); ("wrapperCol", span 14)]
               [widget]]),
       t ++ ["note"%string]).
Proof.
  refine (@plain_field_always_renders (plain "note" "textarea" "json")
                                      (fun _ e => e) _).
  discriminate.
Defined.

(** X11. For a select, radio, checkbox or multiSelect field the dataType
    plays no part: with any other dataType the field takes the same
    width and its producer returns the same element and registers the
    same key. *)
Theorem choice_ignores_dataType
        (field : Field) (dt : string) (getFieldDecorator : decorator)
        (t : list string)
        (C : is_choice field = true) :
  spaceNeed (with_dataType field dt) = spaceNeed field /\
  call_column (producer_of (with_dataType field dt)) getFieldDecorator t =
  call_column (producer_of field) getFieldDecorator t.
Proof.
  unfold is_choice in C. unfold spaceNeed, producer_of, dispatch.
  cbn [showType dataType with_dataType].
  case_str (showType field) "select";
    [|case_str (showType field) "radio";
      [|case_str (showType field) "checkbox";
        [|case_str (showType field) "multiSelect"]]].
  1-4: split; reflexivity.
  discriminate.
Qed.

Lemma choice_ignores_dataType_witness :
  spaceNeed (with_dataType (plain "kind" "radio" "int") "datetime") = 8 /\
  call_column (producer_of (with_dataType (plain "kind" "radio" "int")
                                          "datetime")) (fun _ e => e) [] =
  call_column (producer_of (plain "kind" "radio" "int")) (fun _ e => e) [].
Proof.
  exact (@choice_ignores_dataType (plain "kind" "radio" "int") "datetime"
                                  (fun _ e => e) [] eq_refl).
Defined.

(** X12. An empty placeholder counts as a missing one: except for the
    free-text input, which hands the placeholder on as it is, the
    producer of a field returns the same element whether its three
    placeholders are empty strings or absent. *)
Theorem empty_placeholder_is_missing
        (field : Field) (getFieldDecorator : decorator) (t : list string)
        (T : is_text_input field = false) :
  call_column
    (producer_of (with_placeholders field (Some "") (Some "") (Some "")))
    getFieldDecorator t =
  call_column (producer_of (with_placeholders field None None None))
              getFieldDecorator t.
Proof.
  unfold is_text_input, is_choice in T.
  unfold producer_of, dispatch, transformBetween, transformNormal.
  cbn [showType dataType with_placeholders].
  repeat match goal with
         | |- context [if ?b then _ else _] => destruct b
         end; try reflexivity; discriminate.
Qed.

Lemma empty_placeholder_is_missing_witness :
  call_column
    (producer_of (with_placeholders (plain "born" "between" "datetime")
                                    (Some "") (Some "") (Some "")))
    (fun _ e => e) [] =
  call_column
    (producer_of (with_placeholders (plain "born" "between" "datetime")
                                    None None None))
    (fun _ e => e) [].
Proof.
  exact (@empty_placeholder_is_missing (plain "born" "between" "datetime")
                                       (fun _ e => e) [] eq_refl).
Defined.

(** ** Keys of sibling elements *)

Lemma Begin_not_Div (s : string) : (s ++ "Begin")%string <> "datetimeBetweenDiv".
Proof.
  intros H. apply (f_equal chars) in H. rewrite chars_app in H.
  change (chars "Begin") with (chars "Begi" ++ ["n"%char]) in H.
  change (chars "datetimeBetweenDiv")
    with (chars "datetimeBetweenDi" ++ ["v"%char]) in H.
  rewrite app_assoc in H. apply app_inj_tail in H as [_ H]. discriminate.
Qed.

Lemma cell_key_cases f :
  (showType f <> "between" /\ cell_key f = key f) \/
  (showType f = "between" /\ datetime_between f = false /\
   cell_key f = keyBegin f) \/
  (showType f = "between" /\ datetime_between f = true /\
   cell_key f = "datetimeBetweenDiv").
Proof.
  unfold cell_key, datetime_between.
  destruct (String.eqb_spec (showType f) "between") as [B|B]; auto.
  right. destruct (dataType f === "datetime"); auto.
Qed.

Lemma cell_keys_NoDup r :
  NoDup (map key r) ->
  (forall f g, In f r -> In g r -> showType f <> "between" ->
               key f <> keyBegin g /\ key f <> keyEnd g) ->
  (forall f, In f r -> showType f <> "between" ->
             key f <> "datetimeBetweenDiv") ->
  (List.length (filter datetime_between r) <= 1)%nat ->
  NoDup (map cell_key r).
Proof.
  induction r as [|f r IH]; intros Hk Hc Hd Hn; [constructor|].
  inversion Hk as [|? ? Hnotin Hk']; subst.
  assert (Hn' : (List.length (filter datetime_between r) <= 1)%nat).
  { cbn [filter] in Hn. destruct (datetime_between f); simpl in Hn; lia. }
  cbn [map]. constructor.
  2:{ apply IH; auto; intros; [apply Hc|apply Hd]; simpl; auto. }
  intros Hin. apply in_map_iff in Hin as (g & Hg & Hgin).
  assert (Hfg : key f <> key g).
  { intros E. apply Hnotin. rewrite E. now apply in_map. }
  assert (Hc1 := Hc f g (or_introl eq_refl) (or_intror Hgin)).
  assert (Hc2 := Hc g f (or_intror Hgin) (or_introl eq_refl)).
  assert (Hd1 := Hd f (or_introl eq_refl)).
  assert (Hd2 := Hd g (or_intror Hgin)).
  destruct (cell_key_cases f) as [[Bf Ef]|[(Bf & Df & Ef)|(Bf & Df & Ef)]],
           (cell_key_cases g) as [[Bg Eg]|[(Bg & Dg & Eg)|(Bg & Dg & Eg)]];
    rewrite Ef, Eg in Hg.
  - congruence.
  - destruct (Hc1 Bf). congruence.
  - apply (Hd1 Bf). congruence.
  - destruct (Hc2 Bg). congruence.
  - apply Hfg. symmetry. now apply keyBegin_inj.
  - now apply (Begin_not_Div (key f)).
  - apply (Hd2 Bg). congruence.
  - now apply (Begin_not_Div (key g)).
  - cbn [filter] in Hn. rewrite Df in Hn. simpl in Hn.
    assert (In g (filter datetime_between r)) by (apply filter_In; auto).
    destruct (filter datetime_between r); [contradiction|simpl in Hn; lia].
Qed.

Lemma NoDup_concat_row A (ls : list (list A)) (h : A -> string) r :
  NoDup (map h (List.concat ls)) -> In r ls -> NoDup (map h r).
Proof.
  induction ls as [|l ls IH]; intros H Hin; [destruct Hin|].
  destruct Hin as [->|Hr].
  - simpl in H. rewrite map_app in H. now apply NoDup_app_remove_r in H.
  - apply IH; auto. simpl in H. rewrite map_app in H.
    now apply NoDup_app_remove_l in H.
Qed.

Lemma NoDup_map_injective A B (h : A -> B) l :
  (forall a b, h a = h b -> a = b) -> NoDup l -> NoDup (map h l).
Proof.
  intros Hinj. induction 1 as [|a l Hnotin _ IH]; cbn [map]; constructor; auto.
  intros Hin. apply in_map_iff in Hin as (b & E & Hb).
  apply Hinj in E. now subst.
Qed.

Lemma row_elements_keys ess i :
  map elem_key (row_elements i ess) =
  map (fun n => Some (JNum (Z.of_nat n))) (seq i (List.length ess)).
Proof.
  revert i. induction ess as [|es ess IH]; intros i; [reflexivity|].
  cbn [row_elements map List.length seq elem_key]. now rewrite IH.
Qed.

Lemma cell_of_keys getFieldDecorator r es :
  Forall2 (cell_of getFieldDecorator) r es ->
  map elem_key es = map (fun f => str_key (cell_key f)) r.
Proof.
  induction 1 as [|f e r es (_ & Hk & _) _ IH]; [reflexivity|].
  cbn [map]. now rewrite Hk, IH.
Qed.

(** X15. Sibling elements never share a key: for a schema with pairwise
    distinct keys, no key of a non-between field equal to another field's
    derived key or to 'datetimeBetweenDiv', and a case for every between
    field, the rows of the rendered form have distinct keys and, inside
    each row, the elements of the fields have distinct keys. *)
Theorem sibling_keys_distinct
        (schema : list Field) (getFieldDecorator : decorator)
        (Hkeys : NoDup (map key schema))
        (Hclash : no_derived_clash schema)
        (Hdiv : Forall (fun field => showType field <> "between" ->
                                     key field <> "datetimeBetweenDiv") schema)
        (Hcases : Forall between_has_case schema) :
  exists ess,
    fst (run_render schema getFieldDecorator) = Returned (form_element ess) /\
    NoDup (map elem_key (row_elements 0 ess)) /\
    Forall (fun es => NoDup (map elem_key es)) ess.
Proof.
  destruct (render_structure getFieldDecorator Hcases) as (ess & Hess & Hr).
  exists ess. split; [unfold run_render; rewrite Hr; reflexivity|]. split.
  - rewrite row_elements_keys. apply NoDup_map_injective.
    + intros a b E. injection E as E. now apply Nat2Z.inj.
    + apply seq_NoDup.
  - pose proof (no_derived_clash_In Hclash) as Hc.
    rewrite Forall_forall in Hdiv.
    pose proof (field_rows_columns schema) as Hcols.
    assert (Hrows : Forall (fun r => NoDup (map cell_key r))
                           (field_rows schema)).
    { rewrite Forall_forall in *. intros r Hin.
      assert (Hsub : forall f, In f r -> In f schema).
      { intros f Hf. rewrite <- (concat_field_rows schema).
        apply in_concat. eauto. }
      apply cell_keys_NoDup.
      - apply NoDup_concat_row with (field_rows schema); auto.
        now rewrite concat_field_rows.
      - intros f g Hf Hg. apply Hc; auto.
      - intros f Hf. apply Hdiv; auto.
      - apply (Hcols r Hin). }
    clear Hr. revert Hess Hrows. generalize (field_rows schema) as rs.
    intros rs Hess.
    induction Hess as [|r es rs ess Hres _ IH]; intros Hrows; constructor.
    + inversion Hrows as [|? ? Hrow Hrest]; subst.
      rewrite (cell_of_keys Hres), <- (map_map cell_key (fun s => str_key s)).
      apply NoDup_map_injective; auto.
      intros a b E. now injection E.
    + apply IH. now inversion Hrows.
Qed.

Lemma sibling_keys_distinct_witness :
  exists ess,
    fst (run_render person_fields (fun _ e => e)) =
      Returned (form_element ess) /\
    NoDup (map elem_key (row_elements 0 ess)) /\
    Forall (fun es => NoDup (map elem_key es)) ess.
Proof.
  assert (Hkeys : NoDup (map key person_fields))
    by (repeat constructor; simpl; intuition discriminate).
  assert (Hclash : no_derived_clash person_fields)
    by (unfold person_fields; positions).
  assert (Hdiv : Forall (fun field => showType field <> "between" ->
                           key field <> "datetimeBetweenDiv") person_fields)
    by (repeat apply Forall_cons; try apply Forall_nil; intros _; discriminate).
  exact (sibling_keys_distinct (fun _ e => e) Hkeys Hclash Hdiv
                               has_case_person_fields).
Defined.

(** ** The number of rows of plain schemas *)

Lemma concat_threes A (ls : list (list A)) :
  Forall (fun r => List.length r = 3%nat) ls ->
  List.length (List.concat ls) = (3 * List.length ls)%nat.
Proof.
  induction 1 as [|r ls Hr _ IH]; [reflexivity|].
  cbn [List.concat List.length]. rewrite length_app. lia.
Qed.

(** X16. A schema of [n] fields none of which is a between/datetime field
    is laid out in [n / 3] rows, rounded up. *)
Theorem plain_schema_row_count (schema : list Field)
  (H : Forall (fun field =>
                 ~ (showType field = "between" /\ dataType field = "datetime"))
              schema) :
  List.length (fst (parse_plan schema)) = ((List.length schema + 2) / 3)%nat.
Proof.
  assert (H8 : Forall (fun f => spaceNeed f = 8) schema).
  { eapply Forall_impl; [|exact H]. apply not_datetime_between_eight. }
  rewrite parse_plan_fst, length_map, field_rows_eq.
  pose proof (packed_field_vars schema) as [_ _ Heq Hnn Hfresh].
  assert (T : threes (field_vars schema)).
  { apply threes_fold; auto using packed_init. constructor; simpl; auto. }
  destruct T as [H3 Hc8]. pose proof (row_width_eights Hc8) as Hw.
  pose proof (contents_fold (fun x : Field => x) schema init) as Hcont.
  cbn in Hcont. rewrite map_id in Hcont. fold (field_vars schema) in Hcont.
  apply (f_equal (@List.length Field)) in Hcont.
  rewrite length_app, (concat_threes H3) in Hcont. rewrite <- Hcont.
  destruct (cols (field_vars schema)) as [|c cs] eqn:C.
  - rewrite finish_nil, Hfresh; auto.
  - rewrite finish_cons by congruence. rewrite length_app. cbn [List.length].
    simpl List.length in Hw.
    assert (Hcs : (List.length cs <= 2)%nat) by lia.
    set (a := List.length (rows (field_vars schema))) in *.
    apply Nat.div_unique with (r := List.length cs); simpl List.length; lia.
Qed.

Lemma plain_schema_row_count_witness :
  List.length (fst (parse_plan four_plain_fields)) = 2%nat.
Proof.
  refine (@plain_schema_row_count four_plain_fields _).
  repeat constructor; simpl; intros [E1 E2]; discriminate.
Defined.
